(** * Custom-phrase indexing: a shallow embedding of
      [prepare_corpora_after_alignment.py]

    The script extracts an n-gram replacement vocabulary from joined
    alignments and indexes custom phrases by the noisy renderings that the
    vocabulary predicts for them.  The development follows the script
    function by function: Python's string methods, insertion-ordered
    dictionaries, exceptions, the three processing modes, and then the
    properties of the expansion and of the capped inverted index.  Two
    smaller scripts follow: the batching loop of
    [spellchecking_asr_customization_infer.py] and the sampling loop of
    [make_sample.py]. *)

From Stdlib Require Import String Ascii List Arith ZArith Lia Bool.
From Stdlib Require Import Permutation Sorted DecimalString DecimalNat Decimal Floats.
Import ListNotations.

Set Implicit Arguments.

Local Open Scope string_scope.
Local Open Scope list_scope.
Local Open Scope nat_scope.

(* ================================================================== *)
(** ** Exceptions *)

(** The exceptions the script can raise on its own data. *)
Inductive exn : Type :=
| ValueError
| AssertionError
| ZeroDivisionError.

Inductive result (A : Type) : Type :=
| Ok (a : A)
| Raise (e : exn).

Arguments Ok {A} a.
Arguments Raise {A} e.

Definition bind {A B : Type} (m : result A) (k : A -> result B) : result B :=
  match m with
  | Ok a => k a
  | Raise e => Raise e
  end.

Notation "x <- m ;; k" := (bind m (fun x => k))
  (at level 61, m at next level, right associativity).

(** A [for] loop whose body may raise: the first exception leaves the loop. *)
Fixpoint for_each {A S : Type} (body : S -> A -> result S) (xs : list A) (s : S)
  : result S :=
  match xs with
  | [] => Ok s
  | x :: xs' => s' <- body s x ;; for_each body xs' s'
  end.

(** [range(a, b)] *)
Definition range (a b : nat) : list nat := seq a (b - a).

(* ================================================================== *)
(** ** Python strings *)

Module Str.

Definition tab : ascii := "009"%char.
Definition newline : ascii := "010"%char.
Definition space : ascii := " "%char.

(** [str.isspace] on one character (code points below 256). *)
Definition isspace (c : ascii) : bool :=
  let n := nat_of_ascii c in
  ((9 <=? n) && (n <=? 13)) || ((28 <=? n) && (n <=? 32))
  || (n =? 133) || (n =? 160).

Fixpoint lstrip (s : string) : string :=
  match s with
  | EmptyString => EmptyString
  | String c s' => if isspace c then lstrip s' else s
  end.

Fixpoint rstrip (s : string) : string :=
  match s with
  | EmptyString => EmptyString
  | String c s' =>
      match rstrip s' with
      | EmptyString => if isspace c then EmptyString else String c EmptyString
      | r => String c r
      end
  end.

(** [s.strip()] *)
Definition strip (s : string) : string := rstrip (lstrip s).

(** [s.split(sep)] for a one-character separator: never empty. *)
Fixpoint split (sep : ascii) (s : string) : list string :=
  match s with
  | EmptyString => [EmptyString]
  | String c s' =>
      if Ascii.eqb c sep then EmptyString :: split sep s'
      else match split sep s' with
           | [] => [String c EmptyString]
           | w :: ws => String c w :: ws
           end
  end.

(** [s.split()]: maximal runs of non-whitespace characters. *)
Fixpoint split_ws_from (cur : string) (s : string) : list string :=
  match s with
  | EmptyString => if String.eqb cur "" then [] else [cur]
  | String c s' =>
      if isspace c
      then if String.eqb cur "" then split_ws_from "" s'
           else cur :: split_ws_from "" s'
      else split_ws_from (cur ++ String c "") s'
  end.

Definition split_ws (s : string) : list string := split_ws_from "" s.

(** [sep.join(ws)] *)
Fixpoint join (sep : string) (ws : list string) : string :=
  match ws with
  | [] => ""
  | [w] => w
  | w :: ws' => w ++ sep ++ join sep ws'
  end.

(** [s.count(c)] for a one-character [c]. *)
Fixpoint count (c : ascii) (s : string) : nat :=
  match s with
  | EmptyString => 0
  | String d s' => (if Ascii.eqb d c then 1 else 0) + count c s'
  end.

(** [s.replace(old, new)] for a non-empty [old]: occurrences are found
    left to right and do not overlap.  [skip] counts the characters of a
    match that is being consumed. *)
Fixpoint replace_from (old new : string) (skip : nat) (s : string) : string :=
  match s with
  | EmptyString => EmptyString
  | String c s' =>
      match skip with
      | S k => replace_from old new k s'
      | O =>
          if String.prefix old s
          then new ++ replace_from old new (String.length old - 1) s'
          else String c (replace_from old new 0 s')
      end
  end.

Definition replace (old new s : string) : string := replace_from old new 0 s.

(** [str(n)] for a non-negative integer. *)
Definition of_nat (n : nat) : string := NilEmpty.string_of_uint (Nat.to_uint n).

Definition digit_of (c : ascii) : option Z :=
  let n := nat_of_ascii c in
  if (48 <=? n) && (n <=? 57) then Some (Z.of_nat (n - 48)) else None.

(** Digits with single underscores between them, as [int()] reads them. *)
Fixpoint int_digits (acc : Z) (after_digit : bool) (s : string) : option Z :=
  match s with
  | EmptyString => if after_digit then Some acc else None
  | String c s' =>
      if Ascii.eqb c "_"%char
      then if after_digit then int_digits acc false s' else None
      else match digit_of c with
           | Some d => int_digits (10 * acc + d)%Z true s'
           | None => None
           end
  end.

(** [int(s)]: surrounding whitespace, an optional sign, decimal digits;
    [None] stands for the ValueError. *)
Definition to_int (s : string) : option Z :=
  match strip s with
  | String "+"%char r => int_digits 0 false r
  | String "-"%char r => option_map Z.opp (int_digits 0 false r)
  | t => int_digits 0 false t
  end.

End Str.

(* ================================================================== *)
(** ** Python dictionaries with string keys

    A [dict] keeps its keys in insertion order, and the script iterates over
    dictionaries, so a dictionary is an association list in that order.
    Assigning to a present key keeps its place; a new key goes to the end. *)

Module Dict.

Definition t (V : Type) : Type := list (string * V).

Definition empty {V : Type} : t V := [].

Fixpoint get {V : Type} (k : string) (d : t V) : option V :=
  match d with
  | [] => None
  | (k', v) :: d' => if String.eqb k k' then Some v else get k d'
  end.

(** [k in d] *)
Definition mem {V : Type} (k : string) (d : t V) : bool :=
  match get k d with Some _ => true | None => false end.

(** [d[k]] of a [defaultdict] whose factory gives [dflt] (read only). *)
Definition get_default {V : Type} (k : string) (dflt : V) (d : t V) : V :=
  match get k d with Some v => v | None => dflt end.

(** [d[k] = v] *)
Fixpoint set {V : Type} (k : string) (v : V) (d : t V) : t V :=
  match d with
  | [] => [(k, v)]
  | (k', v') :: d' =>
      if String.eqb k k' then (k', v) :: d' else (k', v') :: set k v d'
  end.

(** [del d[k]] *)
Fixpoint del {V : Type} (k : string) (d : t V) : t V :=
  match d with
  | [] => []
  | (k', v') :: d' => if String.eqb k k' then d' else (k', v') :: del k d'
  end.

(** [d1 | d2]: the keys of [d1] in place, with the values of [d2] where it
    has them, then the keys only [d2] has. *)
Definition union {V : Type} (d1 d2 : t V) : t V :=
  fold_left (fun d kv => set (fst kv) (snd kv) d) d2 d1.

Definition keys {V : Type} (d : t V) : list string := map fst d.

End Dict.

(* ================================================================== *)
(** ** Lists as Python uses them *)

(** [l[a:b]]: a slice stops at the end of the list. *)
Definition slice {A : Type} (l : list A) (a b : nat) : list A :=
  firstn (b - a) (skipn a l).

(** [l[i] = x] for [i] inside the list. *)
Fixpoint set_nth {A : Type} (i : nat) (x : A) (l : list A) : list A :=
  match l, i with
  | [], _ => []
  | _ :: l', O => x :: l'
  | y :: l', S i' => y :: set_nth i' x l'
  end.

(** [sorted(l, key=key, reverse=True)]: descending keys, and elements with
    equal keys keep the order they had in [l]. *)
Section SortedReverse.
Variables (A K : Type) (key : A -> K) (lt : K -> K -> bool).

Fixpoint insert_desc (x : A) (l : list A) : list A :=
  match l with
  | [] => [x]
  | y :: l' => if lt (key x) (key y) then y :: insert_desc x l' else x :: l
  end.

Definition sorted_desc (l : list A) : list A := fold_right insert_desc [] l.
End SortedReverse.

(* ================================================================== *)
(** ** Floating-point numbers

    The script computes with Python floats in four places: the true division
    of two integers, [math.log], the sum and comparison of log-probabilities
    and [str] of a float.  They are the operations of this interface. *)

Record FloatOps : Type := {
  float_t : Type;
  (** [a / b] on integers, [b] not zero *)
  truediv : Z -> Z -> float_t;
  (** [math.log(x)]; [None] is the ValueError of a math domain error *)
  math_log : float_t -> option float_t;
  fadd : float_t -> float_t -> float_t;
  (** [x < y] *)
  flt : float_t -> float_t -> bool;
  (** [x <= y] *)
  fle : float_t -> float_t -> bool;
  (** the literal [-4.0] *)
  minus_four : float_t;
  (** [str(x)] *)
  fstr : float_t -> string
}.

(** [x > y] *)
Definition fgt (F : FloatOps) (x y : float_t F) : bool := flt F y x.

Definition TAB : string := String Str.tab "".
Definition NL : string := String Str.newline "".

(* ================================================================== *)
(** ** Reading the alignment file *)

(** [process_line]: the three facets of a line marked [good:]. *)
Definition process_line (line : string) : option (string * string * string) :=
  match Str.split Str.tab (Str.strip line) with
  | [p0; p1; p2; p3] =>
      if negb (String.eqb p0 "good:") then None else Some (p1, p2, p3)
  | _ => None
  end.

(* ================================================================== *)
(** ** Modes [get_replacement_vocab] and [get_sub_misspells] *)

Record vocabs : Type := {
  full_vocab : Dict.t (Dict.t nat);
  src_vocab : Dict.t nat;
  dst_vocab : Dict.t nat
}.

Definition no_vocabs : vocabs :=
  {| full_vocab := Dict.empty; src_vocab := Dict.empty; dst_vocab := Dict.empty |}.

(** [d[k] += 1] on a [defaultdict(int)] *)
Definition incr (k : string) (d : Dict.t nat) : Dict.t nat :=
  Dict.set k (Dict.get_default k 0 d + 1) d.

Definition update_vocabs_with_aligned_fragment
  (inputs replacements : list string) (v : vocabs) (clean : bool) : vocabs :=
  let inp := Str.join " " inputs in
  let rep := Str.join " " replacements in
  let rep :=
    if clean
    then Str.replace "_" " "
           (Str.replace " " "" (Str.replace "+" "" (Str.replace "<DELETE>" "" rep)))
    else rep in
  let inp := if clean then Str.replace "_" " " (Str.replace " " "" inp) else inp in
  let inner := Dict.get_default inp Dict.empty (full_vocab v) in
  let inner := if negb (Dict.mem rep inner) then Dict.set rep 0 inner else inner in
  let inner := Dict.set rep (Dict.get_default rep 0 inner + 1) inner in
  {| full_vocab := Dict.set inp inner (full_vocab v);
     src_vocab := incr inp (src_vocab v);
     dst_vocab := incr rep (dst_vocab v) |}.

(** The body of the loop over the lines in [get_replacement_vocab]. *)
Definition get_replacement_vocab_line (v : vocabs) (line : string) : result vocabs :=
  match process_line line with
  | None => Ok v
  | Some (src, _, replacement) =>
      let inputs := Str.split Str.space src in
      let replacements := Str.split Str.space replacement in
      if negb (length inputs =? length replacements) then Raise ValueError
      else
        Ok (fold_left
              (fun v begin =>
                 fold_left
                   (fun v end_ =>
                      update_vocabs_with_aligned_fragment
                        (slice inputs begin end_) (slice replacements begin end_) v false)
                   (range (begin + 1) (begin + 5)) v)
              (range 0 (length inputs)) v)
  end.

(** One output line per pair of the vocabulary. *)
Definition vocab_line (v : vocabs) (inp rep : string) (n : nat) : string :=
  inp ++ TAB ++ rep ++ TAB ++ Str.of_nat n
      ++ TAB ++ Str.of_nat (Dict.get_default inp 0 (src_vocab v))
      ++ TAB ++ Str.of_nat (Dict.get_default rep 0 (dst_vocab v)) ++ NL.

Definition get_replacement_vocab (alignment_file : list string) : result (list string) :=
  v <- for_each get_replacement_vocab_line alignment_file no_vocabs ;;
  Ok (flat_map
        (fun entry => map (fun rn => vocab_line v (fst entry) (fst rn) (snd rn)) (snd entry))
        (full_vocab v)).

(** The body of the loop over the lines in [get_sub_misspells]: fragments
    between aligned word borders, then the whole phrase. *)
Definition get_sub_misspells_line (v : vocabs) (line : string) : result vocabs :=
  match process_line line with
  | None => Ok v
  | Some (src, _, replacement) =>
      let inputs := Str.split Str.space src in
      let replacements := Str.split Str.space replacement in
      if negb (length inputs =? length replacements) then Raise ValueError
      else
        let '(begin, v) :=
          fold_left
            (fun bv i =>
               let '(begin, v) := bv in
               if String.eqb (nth i inputs "") "_" && String.eqb (nth i replacements "") "_"
               then (i + 1,
                     update_vocabs_with_aligned_fragment
                       (slice inputs begin i) (slice replacements begin i) v true)
               else (begin, v))
            (range 0 (length inputs)) (0, v) in
        let v :=
          if 0 <? begin
          then update_vocabs_with_aligned_fragment
                 (skipn begin inputs) (skipn begin replacements) v true
          else v in
        Ok (update_vocabs_with_aligned_fragment inputs replacements v true)
  end.

Section Indexer.

Variable F : FloatOps.
Local Abbreviation score := (float_t F).

(** Pairs of [get_sub_misspells] are written unless they are rare or empty. *)
Definition get_sub_misspells (alignment_file : list string) : result (list string) :=
  v <- for_each get_sub_misspells_line alignment_file no_vocabs ;;
  Ok (flat_map
        (fun entry =>
           flat_map
             (fun rn =>
                let inp := fst entry in
                if fle F (truediv F (Z.of_nat (snd rn))
                                  (Z.of_nat (Dict.get_default inp 0 (src_vocab v))))
                         (truediv F 1 200)
                then []
                else if String.eqb (fst rn) "" then []
                else [vocab_line v inp (fst rn) (snd rn)])
             (snd entry))
        (full_vocab v)).

(* ---------------------------------------------------------------- *)
(** *** Mode [index_by_vocab]: the replacement table *)

Definition vocab_t : Type := Dict.t (Dict.t score).

(** One row: [src, dst, joint_freq, src_freq, dst_freq].  The unpacking of
    another number of fields is a ValueError, as is a frequency that is not
    an integer. *)
Definition load_row (vocab : vocab_t) (line : string) : result vocab_t :=
  match Str.split Str.tab (Str.strip line) with
  | [src; dst; joint_freq; src_freq; dst_freq] =>
      if negb (negb (String.eqb src "") && negb (String.eqb dst ""))
      then Raise AssertionError
      else
        match Str.to_int joint_freq with
        | None => Raise ValueError
        | Some j =>
            match Str.to_int src_freq with
            | None => Raise ValueError
            | Some s =>
                if (s =? 0)%Z then Raise ZeroDivisionError
                else
                  Ok (Dict.set src
                        (Dict.set dst (truediv F j s)
                           (Dict.get_default src Dict.empty vocab))
                        vocab)
            end
        end
  | _ => Raise ValueError
  end.

Definition load_vocab (lines : list string) : result vocab_t :=
  for_each load_row lines Dict.empty.

(* ---------------------------------------------------------------- *)
(** *** The phrase expander *)

(** [index_keys[b]]: the renderings of the coverings that begin at token
    [b], each with its log-probability. *)
Definition covering : Type := Dict.t score.

(** The body of [for ngram in index_keys[b]]: a rendering that reaches
    [begin] and leaves room for [rep] is extended by it. *)
Definition extend (rep : string) (lp : score) (begin b : nat)
  (new_ngrams : covering) (item : string * score) : covering :=
  let '(ngram, lp_prev) := item in
  if (String.length ngram + String.length rep <=? 10)
     && (b + Str.count Str.space ngram =? begin)
  then if fgt F (fadd F lp_prev lp) (minus_four F)
       then Dict.set (ngram ++ rep ++ " ") (fadd F lp_prev lp) new_ngrams
       else new_ngrams
  else new_ngrams.

(** The body of the loop over [b]: the new renderings are collected, then
    joined into [index_keys[b]]. *)
Definition grow (rep : string) (lp : score) (begin : nat)
  (index_keys : list covering) (b : nat) : list covering :=
  let new_ngrams :=
    fold_left (extend rep lp begin b) (nth b index_keys Dict.empty) Dict.empty in
  set_nth b (Dict.union (nth b index_keys Dict.empty) new_ngrams) index_keys.

(** The body of [for rep in vocab[inp]]; [p] is [vocab[inp][rep]]. *)
Definition add_replacement (begin end_ : nat) (index_keys : list covering)
  (entry : string * score) : result (list covering) :=
  let '(rep, p) := entry in
  match math_log F p with
  | None => Raise ValueError
  | Some lp =>
      let rep := Str.replace "<DELETE>" "=" rep in
      if String.eqb (Str.strip rep) "" then Ok index_keys
      else
        let index_keys :=
          fold_left (grow rep lp begin) (range (Nat.max 0 (end_ - 5)) end_) index_keys in
        Ok (if fgt F lp (minus_four F)
            then set_nth begin
                   (Dict.set (rep ++ " ") lp (nth begin index_keys Dict.empty))
                   index_keys
            else index_keys)
  end.

(** The body of the loop over [end]: the window [inputs[begin:end]]. *)
Definition expand_window (vocab : vocab_t) (inputs : list string) (begin : nat)
  (index_keys : list covering) (end_ : nat) : result (list covering) :=
  let inp := Str.join " " (slice inputs begin end_) in
  match Dict.get inp vocab with
  | None => Ok index_keys
  | Some targets => for_each (add_replacement begin end_) targets index_keys
  end.

Definition expand_from (vocab : vocab_t) (inputs : list string)
  (index_keys : list covering) (begin : nat) : result (list covering) :=
  for_each (expand_window vocab inputs begin)
    (range (begin + 1) (Nat.min (length inputs + 1) (begin + 5))) index_keys.

(** All windows of a phrase, from [index_keys = [{} for i in inputs]]. *)
Definition expand (vocab : vocab_t) (inputs : list string) : result (list covering) :=
  for_each (expand_from vocab inputs) (range 0 (length inputs))
    (map (fun _ => Dict.empty) inputs).

(* ---------------------------------------------------------------- *)
(** *** The inverted index *)

(** [(phrase, b, real_length, lp)] *)
Definition posting : Type := string * nat * nat * score.

Record index_state : Type := {
  index_freq : Dict.t nat;
  ngram_to_phrase_and_position : Dict.t (list posting);
  ban_ngram : list string
}.

Definition empty_index : index_state :=
  {| index_freq := Dict.empty;
     ngram_to_phrase_and_position := Dict.empty;
     ban_ngram := [] |}.

(** [ngram in ban_ngram] *)
Definition banned (ngram : string) (st : index_state) : bool :=
  existsb (String.eqb ngram) (ban_ngram st).

(** The letters of a rendering: fill marks become spaces, spaces collapse. *)
Definition normalize (ngram : string) : string :=
  Str.join " " (Str.split_ws (Str.replace "=" " " (Str.replace "+" " " ngram))).

(** One generation of [ngram]: count it, and unless it is banned append the
    posting; the posting that makes more than 100 bans the ngram. *)
Definition add_posting (st : index_state) (ngram : string) (p : posting) : index_state :=
  let freq := incr ngram (index_freq st) in
  if banned ngram st
  then {| index_freq := freq;
          ngram_to_phrase_and_position := ngram_to_phrase_and_position st;
          ban_ngram := ban_ngram st |}
  else
    let postings :=
      Dict.set ngram
        (Dict.get_default ngram [] (ngram_to_phrase_and_position st) ++ [p])
        (ngram_to_phrase_and_position st) in
    if 100 <? length (Dict.get_default ngram [] postings)
    then {| index_freq := freq;
            ngram_to_phrase_and_position := Dict.del ngram postings;
            ban_ngram := ngram :: ban_ngram st |}
    else {| index_freq := freq;
            ngram_to_phrase_and_position := postings;
            ban_ngram := ban_ngram st |}.

(** The renderings of [index_keys[b]], best first. *)
Definition by_score (c : covering) : list (string * score) :=
  sorted_desc (@snd string score) (flt F) c.

Definition index_position (phrase : string) (index_keys : list covering)
  (st : index_state) (b : nat) : index_state :=
  fold_left
    (fun st (item : string * score) =>
       let '(ngram, lp) := item in
       let real_length := Str.count Str.space ngram in
       add_posting st (normalize ngram) (phrase, b, real_length, lp))
    (by_score (nth b index_keys Dict.empty)) st.

Definition index_phrase (phrase : string) (index_keys : list covering)
  (st : index_state) : index_state :=
  fold_left (index_position phrase index_keys) (range 0 (length index_keys)) st.

(** The body of the loop over the lines of the alignment file: only the
    first facet of a line is used. *)
Definition index_line (vocab : vocab_t) (st : index_state) (line : string)
  : result index_state :=
  match process_line line with
  | None => Ok st
  | Some (phrase, _, _) =>
      let inputs := Str.split Str.space phrase in
      index_keys <- expand vocab inputs ;;
      Ok (index_phrase phrase index_keys st)
  end.

(* ---------------------------------------------------------------- *)
(** *** The index writer *)

Definition index_row (ngram : string) (p : posting) : string :=
  let '(phrase, b, length, lp) := p in
  ngram ++ TAB ++ phrase ++ TAB ++ Str.of_nat b ++ TAB ++ Str.of_nat length
        ++ TAB ++ fstr F lp ++ NL.

(** The ngrams in the order of the output: most generated first. *)
Definition by_popularity (st : index_state) : list (string * nat) :=
  sorted_desc (@snd string nat) Nat.ltb (index_freq st).

Definition write_index (st : index_state) : list string :=
  flat_map
    (fun nf : string * nat =>
       map (index_row (fst nf))
         (Dict.get_default (fst nf) [] (ngram_to_phrase_and_position st)))
    (by_popularity st).

(** [index_by_vocab]; a file is its lines, and [None] a file that does not
    exist. *)
Definition index_by_vocab (vocab_file : option (list string))
  (alignment_file : list string) : result (list string) :=
  match vocab_file with
  | None => Raise ValueError
  | Some rows =>
      vocab <- load_vocab rows ;;
      st <- for_each (index_line vocab) alignment_file empty_index ;;
      Ok (write_index st)
  end.

(** [main]: the dispatch on [--mode]. *)
Definition main (mode : string) (vocab_file : option (list string))
  (alignment_file : list string) : result (list string) :=
  if String.eqb mode "get_replacement_vocab" then get_replacement_vocab alignment_file
  else if String.eqb mode "index_by_vocab" then index_by_vocab vocab_file alignment_file
  else if String.eqb mode "get_sub_misspells" then get_sub_misspells alignment_file
  else Raise ValueError.

End Indexer.

(* ================================================================== *)
(** ** Python floats as IEEE 754 binary64

    Sum, comparison and division are the primitive binary64 operations.  The
    logarithm and the printing of a float are library code of the Python
    runtime: the instance takes them as arguments. *)

Module Binary64.

Definition of_Z (z : Z) : float :=
  match z with
  | Z0 => PrimFloat.of_uint63 (Uint63.of_Z 0)
  | Zpos _ => PrimFloat.of_uint63 (Uint63.of_Z z)
  | Zneg p => PrimFloat.opp (PrimFloat.of_uint63 (Uint63.of_Z (Zpos p)))
  end.

(** The quotient of two integers below 2^53 in absolute value. *)
Definition int_truediv (a b : Z) : float := PrimFloat.div (of_Z a) (of_Z b).

Definition ops (log : float -> option float) (str : float -> string) : FloatOps :=
  {| float_t := float;
     truediv := int_truediv;
     math_log := log;
     fadd := PrimFloat.add;
     flt := PrimFloat.ltb;
     fle := PrimFloat.leb;
     minus_four := (-4)%float;
     fstr := str |}.

(** [math.log] at 1, 1/2, 1/4 and 1/128, the probabilities of the scenarios
    below; no other argument occurs there, and none has a value here. *)
Definition log_table (x : float) : option float :=
  if PrimFloat.eqb x 1%float then Some 0%float
  else if PrimFloat.eqb x 0.5%float then Some (-0x1.62e42fefa39efp-1)%float
  else if PrimFloat.eqb x 0.25%float then Some (-0x1.62e42fefa39efp+0)%float
  else if PrimFloat.eqb x 0.0078125%float then Some (-0x1.3687a9f1af2b1p+2)%float
  else None.

(** [str] at 0.0, ln 1/2 and ln 1/4, the scores that the scenarios below
    write. *)
Definition str_table (x : float) : string :=
  if PrimFloat.eqb x 0%float then "0.0"
  else if PrimFloat.eqb x (-0x1.62e42fefa39efp-1)%float then "-0.6931471805599453"
  else if PrimFloat.eqb x (-0x1.62e42fefa39efp+0)%float then "-1.3862943611198906"
  else "".

Definition py : FloatOps := ops log_table str_table.

End Binary64.

(* ================================================================== *)
(** ** Runs of the index builder

    The index builder sees a run as the sequence of its generations: each
    rendering of each position of each phrase, in the order of the loops,
    gives one ngram and one posting. *)

Section Generations.
Variable F : FloatOps.

Definition generation : Type := string * posting F.

Definition generate (st : index_state F) (g : generation) : index_state F :=
  add_posting st (fst g) (snd g).

(** The state of the index after the generations [gs]. *)
Definition generated (gs : list generation) : index_state F :=
  fold_left generate gs (empty_index F).

(** The postings generated for [ngram], oldest first. *)
Definition of_ngram (ngram : string) (gs : list generation) : list (posting F) :=
  map snd (filter (fun g => String.eqb (fst g) ngram) gs).

(** The generations of one phrase, in the order of the loops over [b] and
    over the sorted renderings. *)
Definition generations_of (phrase : string) (index_keys : list (covering F))
  : list generation :=
  flat_map
    (fun b =>
       map (fun item : string * float_t F =>
              (normalize (fst item),
               (phrase, b, Str.count Str.space (fst item), snd item)))
         (by_score (nth b index_keys Dict.empty)))
    (range 0 (length index_keys)).

(** The list a push leaves for [n] when [n] is not banned. *)
Definition pushed (st : index_state F) (n : string) (p : posting F) : list (posting F) :=
  Dict.get_default n [] (ngram_to_phrase_and_position st) ++ [p].

(** The generations of one line and of a whole alignment file. *)
Definition line_generations (vocab : vocab_t F) (line : string) : list generation :=
  match process_line line with
  | None => []
  | Some (phrase, _, _) =>
      match expand vocab (Str.split Str.space phrase) with
      | Ok index_keys => generations_of phrase index_keys
      | Raise _ => []
      end
  end.

Definition run_generations (vocab : vocab_t F) (lines : list string) : list generation :=
  flat_map (line_generations vocab) lines.

(** The lines the writer emits for [ngram]. *)
Definition rows_of (st : index_state F) (ngram : string) : list string :=
  map (index_row ngram) (Dict.get_default ngram [] (ngram_to_phrase_and_position st)).

End Generations.

(* ================================================================== *)
(** ** How a rendering comes about

    [recorded vocab inputs b ngram lp] retraces the loops of the expander: a
    rendering kept under [b] starts with a replacement of a window that
    begins at token [b], and each extension adds a replacement of a window
    that begins where the count of spaces of the rendering says. *)

Section Coverings.
Variable F : FloatOps.
Variable vocab : vocab_t F.
Variable inputs : list string.

(** [rep], with log-probability [lp], is a usable replacement of the
    window [inputs[begin:end_]]. *)
Definition candidate (begin end_ : nat) (rep : string) (lp : float_t F) : Prop :=
  begin < end_ /\ end_ <= begin + 4 /\ end_ <= length inputs /\
  exists targets target p,
    Dict.get (Str.join " " (slice inputs begin end_)) vocab = Some targets
    /\ In (target, p) targets
    /\ math_log F p = Some lp
    /\ rep = Str.replace "<DELETE>" "=" target
    /\ Str.strip rep <> "".

Inductive recorded (b : nat) : string -> float_t F -> Prop :=
| recorded_fresh end_ rep lp :
    candidate b end_ rep lp ->
    fgt F lp (minus_four F) = true ->
    recorded b (rep ++ " ") lp
| recorded_extension ngram lp_prev begin end_ rep lp :
    recorded b ngram lp_prev ->
    candidate begin end_ rep lp ->
    end_ - 5 <= b < end_ ->
    String.length ngram + String.length rep <= 10 ->
    b + Str.count Str.space ngram = begin ->
    fgt F (fadd F lp_prev lp) (minus_four F) = true ->
    recorded b (ngram ++ rep ++ " ") (fadd F lp_prev lp).

(** Every rendering kept under every [b] has come about by the rules. *)
Definition all_recorded (index_keys : list (covering F)) : Prop :=
  forall b ngram lp,
    In (ngram, lp) (nth b index_keys Dict.empty) -> recorded b ngram lp.

(** Under every [b], a rendering has one log-probability. *)
Definition all_distinct (index_keys : list (covering F)) : Prop :=
  forall b, NoDup (Dict.keys (nth b index_keys Dict.empty)).

End Coverings.

(* ================================================================== *)
(** ** Scenarios

    Small tables and phrases on which the script is run below, with Python's
    floats. *)

Module Scenarios.
Import Binary64.

(** A row of the table and a line of the alignment file. *)
Definition row (src dst joint_freq src_freq dst_freq : string) : string :=
  src ++ TAB ++ dst ++ TAB ++ joint_freq ++ TAB ++ src_freq ++ TAB ++ dst_freq ++ NL.

Definition good (src dst align : string) : string :=
  "good:" ++ TAB ++ src ++ TAB ++ dst ++ TAB ++ align ++ NL.

(** A line of the index. *)
Definition index_line_of (ngram phrase b span lp : string) : string :=
  ngram ++ TAB ++ phrase ++ TAB ++ b ++ TAB ++ span ++ TAB ++ lp ++ NL.

(** [math.log(0.5)] and [math.log(0.25)] *)
Definition ln_half : float := (-0x1.62e42fefa39efp-1)%float.
Definition ln_quarter : float := (-0x1.62e42fefa39efp+0)%float.

(** The table and the phrase [a b c] of the end-to-end scenario. *)
Definition table_abc : list string :=
  [row "a b" "x" "1" "2" "1"; row "b c" "y" "1" "2" "1"].

Definition vocab_abc : vocab_t py :=
  [("a b", [("x", 0.5%float)]); ("b c", [("y", 0.5%float)])].

Definition lines_abc : list string := [good "a b c" "a b c" "x x y"].

(** One replacement [z] and phrases [z], [z q], [z q q], ... *)
Definition table_z : list string := [row "z" "z" "1" "1" "1"].

Definition vocab_z : vocab_t py := [("z", [("z", 1%float)])].

Fixpoint phrase_z (n : nat) : string :=
  match n with
  | O => "z"
  | S k => phrase_z k ++ " q"
  end.

Definition lines_z (n : nat) : list string :=
  map (fun k => good (phrase_z k) "-" "-") (seq 0 n).

Fixpoint distinct (l : list string) : bool :=
  match l with
  | [] => true
  | x :: l' => negb (existsb (String.eqb x) l') && distinct l'
  end.

(** A replacement of twelve characters, and replacements of four and five
    characters for adjacent tokens. *)
Definition table_long : list string := [row "a" "abcdefghijkl" "1" "1" "1"].

Definition vocab_long : vocab_t py := [("a", [("abcdefghijkl", 1%float)])].

Definition table_fives : list string :=
  [row "a" "abcd" "1" "1" "1"; row "b" "fghij" "1" "1" "1"].

Definition vocab_fives : vocab_t py :=
  [("a", [("abcd", 1%float)]); ("b", [("fghij", 1%float)])].

(** The same rendering from two windows, and from a window and an
    extension. *)
Definition vocab_twice : vocab_t py :=
  [("a", [("x", 0.5%float)]); ("a b", [("x", 0.25%float)])].

Definition vocab_both : vocab_t py :=
  [("a", [("x", 0.5%float)]); ("a b", [("x y", 1%float)]); ("b", [("y", 0.5%float)])].

(** A replacement of probability 1/128, below e^-4. *)
Definition vocab_rare : vocab_t py := [("a", [("x", 0.0078125%float)])].

(** A line whose facets have two tokens and one token. *)
Definition table_a : list string := [row "a" "x" "1" "1" "1"].
Definition line_mismatch : string := good "a b" "x" "x".

End Scenarios.

(** The reading of the coverings by the position they end at: what is kept
    under [b] has consumed [b] tokens, counted as the script counts them, by
    the spaces of the rendering. *)
Definition keyed_by_end (F : FloatOps) (index_keys : list (covering F)) : Prop :=
  forall b ngram lp,
    In (ngram, lp) (nth b index_keys Dict.empty) -> Str.count Str.space ngram = b.

(* ================================================================== *)
(** ** [spellchecking_asr_customization_infer.py]: the loop over one file

    The model is consumed as the function [infer] from a batch of lines to
    its predictions.  [batch_size] is the value of the configuration, any
    integer. *)

(** [enumerate(l)] *)
Definition enumerate (A : Type) (l : list A) : list (nat * A) :=
  combine (seq 0 (length l)) l.

Section Inference.
Variable infer : list string -> list string.

(** The body of the loop over the lines, on [(batch, all_preds)]; [n] is
    [len(lines)]. *)
Definition infer_step (batch_size : Z) (n : nat)
  (st : list string * list string) (il : nat * string) : list string * list string :=
  let '(batch, all_preds) := st in
  let '(i, line) := il in
  let batch := batch ++ [Str.strip line] in
  if (Z.of_nat (length batch) =? batch_size)%Z || (Z.of_nat i =? Z.of_nat n - 1)%Z
  then ([], all_preds ++ infer batch)
  else (batch, all_preds).

(** [all_preds] after the loop. *)
Definition all_predictions (batch_size : Z) (lines : list string) : list string :=
  snd (fold_left (infer_step batch_size (length lines)) (enumerate lines) ([], [])).

(** What is written to the output file, or the ValueError of a number of
    predictions that is not the number of lines. *)
Definition infer_file (batch_size : Z) (lines : list string) : result string :=
  let all_preds := all_predictions batch_size lines in
  if negb (length all_preds =? length lines) then Raise ValueError
  else Ok (Str.join NL all_preds).

End Inference.

(** A batch the loop may send: not empty, and within the batch size when
    that is positive. *)
Definition sendable (batch_size : Z) (b : list string) : Prop :=
  b <> [] /\ ((0 < batch_size)%Z -> (Z.of_nat (length b) <= batch_size)%Z).

(* ================================================================== *)
(** ** [make_sample.py]: upsampling by class

    The script reads the files of the input directory in the order of their
    names and writes the sentences that have a class seen fewer than
    [min_number] times.  A file is its contents, and what the script returns
    here is what it writes and the counts it prints. *)

(** [s.split(sep)] for a separator of several characters, not empty:
    occurrences are found left to right and do not overlap.  [cur] is the
    part being read, [skip] counts the characters of a separator that is
    being passed. *)
Fixpoint split_by_from (sep : string) (skip : nat) (cur : string) (s : string)
  : list string :=
  match s with
  | EmptyString => [cur]
  | String c s' =>
      match skip with
      | S k => split_by_from sep k cur s'
      | O =>
          if String.prefix sep s
          then cur :: split_by_from sep (String.length sep - 1) "" s'
          else split_by_from sep 0 (cur ++ String c "")%string s'
      end
  end.

Definition split_by (sep s : string) : list string := split_by_from sep 0 "" s.

(** The line that ends a sentence. *)
Definition EOS : string := ("<eos>" ++ TAB ++ "<eos>" ++ NL)%string.

(** [fields[0]] of [sent_part.split("\t")] *)
Definition cls_of (sent_part : string) : string :=
  hd "" (Str.split Str.tab sent_part).

(** Reading [d[k]] of a [defaultdict(int)] enters [k] when it is missing. *)
Definition touch (k : string) (d : Dict.t nat) : Dict.t nat :=
  if Dict.mem k d then d else Dict.set k 0 d.

(** The first loop over the parts of a sentence: it stops at the first class
    below [min_number]. *)
Fixpoint take_this_sent (min_number : Z) (sent_parts : list string) (cls2count : Dict.t nat)
  : bool * Dict.t nat :=
  match sent_parts with
  | [] => (false, cls2count)
  | sent_part :: rest =>
      let cls := cls_of sent_part in
      let cls2count := touch cls cls2count in
      if (Z.of_nat (Dict.get_default cls 0%nat cls2count) <? min_number)%Z
      then (true, cls2count)
      else take_this_sent min_number rest cls2count
  end.

(** The body of the loop over the sentences, on the counts and the output. *)
Definition sample_sent (min_number : Z) (st : Dict.t nat * string) (sent : string)
  : Dict.t nat * string :=
  let '(cls2count, out) := st in
  let sent_parts := Str.split Str.newline sent in
  let '(take, cls2count) := take_this_sent min_number sent_parts cls2count in
  if take
  then (fold_left (fun d sent_part => incr (cls_of sent_part) d) sent_parts cls2count,
        (out ++ sent ++ EOS)%string)
  else (cls2count, out).

Definition sample_file (min_number : Z) (st : Dict.t nat * string) (contents : string)
  : Dict.t nat * string :=
  fold_left (sample_sent min_number) (split_by EOS contents) st.

Definition make_sample (min_number : Z) (input_files : list string) : Dict.t nat * string :=
  fold_left (sample_file min_number) input_files (Dict.empty, "").

(** The sentences of the files, the parts of sentences, and how often a
    class stands first in a part. *)
Definition sentences (input_files : list string) : list string :=
  flat_map (split_by EOS) input_files.

Definition parts_of (sents : list string) : list string :=
  flat_map (Str.split Str.newline) sents.

Definition occurrences (cls : string) (sents : list string) : nat :=
  length (filter (fun sent_part => String.eqb (cls_of sent_part) cls) (parts_of sents)).

(** [cls2count[cls] < min_number] for some part of the sentence. *)
Definition wanted (min_number : Z) (cls2count : Dict.t nat) (sent : string) : bool :=
  existsb (fun sent_part =>
             (Z.of_nat (Dict.get_default (cls_of sent_part) 0%nat cls2count) <? min_number)%Z)
    (Str.split Str.newline sent).

(** [l1] is [l2] without some of its elements. *)
Inductive subseq (A : Type) : list A -> list A -> Prop :=
| subseq_nil : subseq [] []
| subseq_take x l1 l2 : subseq l1 l2 -> subseq (x :: l1) (x :: l2)
| subseq_skip x l1 l2 : subseq l1 l2 -> subseq l1 (x :: l2).

(* ================================================================== *)
(** ** Notions of the further properties *)

(** [s.isspace() or s == ""]: every character is whitespace. *)
Fixpoint blank (s : string) : bool :=
  match s with
  | EmptyString => true
  | String c s' => Str.isspace c && blank s'
  end.

(** The sum of the counts of a dictionary. *)
Definition total (d : Dict.t nat) : nat := list_sum (map snd d).

(** The three vocabularies agree: a pair was counted at least once, and not
    more often than its source and than its replacement. *)
Definition counts_agree (v : vocabs) : Prop :=
  forall inp targets rep n,
    Dict.get inp (full_vocab v) = Some targets ->
    Dict.get rep targets = Some n ->
    1 <= n /\ n <= Dict.get_default inp 0 (src_vocab v)
    /\ n <= Dict.get_default rep 0 (dst_vocab v).

(** No key twice, in the vocabulary of pairs and in the replacements of a
    source. *)
Definition keys_once (v : vocabs) : Prop :=
  NoDup (Dict.keys (full_vocab v))
  /\ forall inp targets,
      Dict.get inp (full_vocab v) = Some targets -> NoDup (Dict.keys targets).

(** What both vocabulary modes keep. *)
Definition vocabs_ok (v : vocabs) : Prop := keys_once v /\ counts_agree v.

(** [vocab[src][dst]], where the table has it. *)
Definition probability (F : FloatOps) (vocab : vocab_t F) (src dst : string)
  : option (float_t F) :=
  match Dict.get src vocab with
  | Some targets => Dict.get dst targets
  | None => None
  end.

(** [p] holds of every character of [s]. *)
Fixpoint all_chars (p : ascii -> bool) (s : string) : bool :=
  match s with
  | EmptyString => true
  | String c s' => p c && all_chars p s'
  end.

(** A character of a word of an ngram: no whitespace and no fill mark. *)
Definition letter (c : ascii) : bool :=
  negb (Str.isspace c) && negb (Ascii.eqb c "+") && negb (Ascii.eqb c "=").

(** No source and no replacement of the vocabulary of pairs has a tab. *)
Definition tab_free (v : vocabs) : Prop :=
  forall inp targets rep n,
    Dict.get inp (full_vocab v) = Some targets ->
    Dict.get rep targets = Some n ->
    Str.count Str.tab inp = 0 /\ Str.count Str.tab rep = 0.

(** The positions at which both facets have the token [_]: the word borders
    of [get_sub_misspells]. *)
Definition borders (inputs replacements : list string) : list nat :=
  filter (fun i => String.eqb (nth i inputs "") "_" && String.eqb (nth i replacements "") "_")
    (range 0 (length inputs)).

(* ================================================================== *)
(** ** More scenarios *)

Module Cases.
Import Binary64.
Import Scenarios.

(** A table with a joint count of 0: its probability has no logarithm. *)
Definition vocab_zero : vocab_t py := [("a", [("x", 0%float)])].

(** The table of [z] after the row of ["a" -> "x"] with counts 1 and 2. *)
Definition vocab_z_a : vocab_t py := [("z", [("z", 1%float)]); ("a", [("x", 0.5%float)])].

(** A model that predicts every line as it is. *)
Definition echo (batch : list string) : list string := batch.

Definition three_lines : list string :=
  [("a" ++ NL)%string; ("b" ++ NL)%string; ("c" ++ NL)%string].

(** A part of a sentence, and a file of three sentences of the classes A, A
    and B. *)
Definition part (cls text : string) : string := (cls ++ TAB ++ text ++ NL)%string.

Definition file_aab : string :=
  (part "A" "x" ++ EOS ++ part "A" "y" ++ EOS ++ part "B" "z" ++ EOS)%string.

End Cases.

(* ================================================================== *)
(** * Properties *)

(** ** Dictionaries *)

Module DictFacts.
Import Dict.

Section Facts.
Variable V : Type.
Implicit Types (d : t V) (k : string) (v : V).

Lemma get_set_same k v d : get k (set k v d) = Some v.
Proof.
  induction d as [|[k' v'] d IH]; simpl.
  - now rewrite String.eqb_refl.
  - destruct (String.eqb k k') eqn:E; simpl; rewrite E; auto.
Qed.

Lemma get_set_other k k' v d : k <> k' -> get k' (set k v d) = get k' d.
Proof.
  intros N. induction d as [|[k0 v0] d IH]; simpl.
  - destruct (String.eqb_spec k' k); congruence.
  - destruct (String.eqb_spec k k0); simpl.
    + subst k0. destruct (String.eqb_spec k' k); congruence.
    + now rewrite IH.
Qed.

Lemma get_None_keys k d : get k d = None <-> ~ In k (keys d).
Proof.
  induction d as [|[k' v'] d IH]; simpl.
  - tauto.
  - destruct (String.eqb_spec k k').
    + split; [discriminate | intros H; exfalso; apply H; auto].
    + rewrite IH. intuition congruence.
Qed.

Lemma get_Some_In k v d : get k d = Some v -> In (k, v) d.
Proof.
  induction d as [|[k' v'] d IH]; simpl; [discriminate|].
  destruct (String.eqb_spec k k'); intros H.
  - inversion H; subst; auto.
  - auto.
Qed.

Lemma In_get k v d : NoDup (keys d) -> In (k, v) d -> get k d = Some v.
Proof.
  induction d as [|[k' v'] d IH]; simpl; [tauto|].
  intros ND [E | I].
  - inversion E; subst. now rewrite String.eqb_refl.
  - inversion ND; subst.
    destruct (String.eqb_spec k k'); auto.
    subst k'. exfalso. apply H1. change k with (fst (k, v)). now apply in_map.
Qed.

Lemma keys_set k v d :
  keys (set k v d) = if mem k d then keys d else keys d ++ [k].
Proof.
  unfold mem. induction d as [|[k' v'] d IH]; simpl; auto.
  destruct (String.eqb_spec k k'); simpl; auto.
  rewrite IH. now destruct (get k d).
Qed.

Lemma NoDup_set k v d : NoDup (keys d) -> NoDup (keys (set k v d)).
Proof.
  intros ND. rewrite keys_set. unfold mem.
  destruct (get k d) eqn:G; auto.
  apply get_None_keys in G.
  apply NoDup_rev in ND. rewrite <- (rev_involutive (keys d ++ [k])).
  apply NoDup_rev. rewrite rev_app_distr. simpl. constructor; auto.
  now rewrite <- in_rev.
Qed.

Lemma In_keys_del k k' d : In k' (keys (del k d)) -> In k' (keys d).
Proof.
  induction d as [|[k0 v0] d IH]; simpl; auto.
  destruct (String.eqb k k0); simpl; tauto.
Qed.

Lemma NoDup_del k d : NoDup (keys d) -> NoDup (keys (del k d)).
Proof.
  induction d as [|[k0 v0] d IH]; simpl; auto.
  intros ND. inversion ND; subst.
  destruct (String.eqb k k0); simpl; auto.
  constructor; auto. intros I. apply H1. eapply In_keys_del; eauto.
Qed.

Lemma get_del_same k d : NoDup (keys d) -> get k (del k d) = None.
Proof.
  induction d as [|[k0 v0] d IH]; simpl; auto.
  intros ND. inversion ND; subst.
  destruct (String.eqb_spec k k0); simpl.
  - subst. now apply get_None_keys.
  - destruct (String.eqb_spec k k0); [congruence | auto].
Qed.

Lemma get_del_other k k' d : k <> k' -> get k' (del k d) = get k' d.
Proof.
  intros N. induction d as [|[k0 v0] d IH]; simpl; auto.
  destruct (String.eqb_spec k k0); simpl.
  - subst. destruct (String.eqb_spec k' k0); congruence.
  - now rewrite IH.
Qed.

(** [d1 | d2]: the right operand wins. *)
Lemma get_union k d1 d2 :
  NoDup (keys d2) ->
  get k (union d1 d2) = match get k d2 with Some v => Some v | None => get k d1 end.
Proof.
  unfold union. revert d1.
  induction d2 as [|[k2 v2] d2 IH]; simpl; intros d1 ND; auto.
  inversion ND; subst. rewrite IH by assumption.
  destruct (String.eqb_spec k k2).
  - subst. apply get_None_keys in H1. rewrite H1. apply get_set_same.
  - destruct (get k d2); auto. apply get_set_other. congruence.
Qed.

Lemma NoDup_union d1 d2 : NoDup (keys d1) -> NoDup (keys (union d1 d2)).
Proof.
  unfold union. revert d1.
  induction d2 as [|[k2 v2] d2 IH]; simpl; intros d1 ND; auto.
  apply IH. now apply NoDup_set.
Qed.

Lemma In_set k v k' v' d :
  In (k', v') (set k v d) -> (k' = k /\ v' = v) \/ In (k', v') d.
Proof.
  induction d as [|[k0 v0] d IH]; simpl.
  - intros [E | []]. inversion E; auto.
  - destruct (String.eqb_spec k k0); simpl.
    + subst k0. intros [E | I]; [inversion E|]; auto.
    + intros [E | I]; auto. destruct (IH I); auto.
Qed.

Lemma In_union k v d1 d2 : In (k, v) (union d1 d2) -> In (k, v) d1 \/ In (k, v) d2.
Proof.
  unfold union. revert d1.
  induction d2 as [|[k2 v2] d2 IH]; simpl; intros d1 I; auto.
  destruct (IH _ I) as [I1 | I2]; auto.
  destruct (In_set _ _ _ _ _ I1) as [[-> ->] | ?]; auto.
Qed.

End Facts.
End DictFacts.

(** ** [sorted(..., reverse=True)] *)

Section SortedReverseFacts.
Variables (A K : Type) (key : A -> K) (lt : K -> K -> bool).

Lemma insert_desc_perm x l : Permutation (insert_desc key lt x l) (x :: l).
Proof.
  induction l as [|y l IH]; simpl; auto.
  destruct (lt (key x) (key y)); auto.
  rewrite IH. apply perm_swap.
Qed.

Lemma sorted_desc_perm l : Permutation (sorted_desc key lt l) l.
Proof.
  induction l as [|x l IH]; simpl; auto.
  rewrite insert_desc_perm. now constructor.
Qed.

Lemma sorted_desc_In x l : In x (sorted_desc key lt l) <-> In x l.
Proof.
  split; apply Permutation_in; [|symmetry]; apply sorted_desc_perm.
Qed.

(** Elements that a test on the key selects keep their order, as long as the
    test tells apart two keys that [lt] orders. *)
Variable sel : K -> bool.
Hypothesis sel_lt : forall a b, lt a b = true -> sel a = true -> sel b = false.

Lemma insert_desc_filter x l :
  filter (fun y => sel (key y)) (insert_desc key lt x l)
  = filter (fun y => sel (key y)) (x :: l).
Proof.
  induction l as [|y l IH]; simpl; auto.
  destruct (lt (key x) (key y)) eqn:L; simpl; auto.
  simpl in IH. rewrite IH.
  destruct (sel (key x)) eqn:Sx; auto.
  now rewrite (sel_lt L Sx).
Qed.

Lemma sorted_desc_filter l :
  filter (fun y => sel (key y)) (sorted_desc key lt l)
  = filter (fun y => sel (key y)) l.
Proof.
  induction l as [|x l IH]; simpl; auto.
  rewrite insert_desc_filter. simpl. now rewrite IH.
Qed.
End SortedReverseFacts.

Section SortedByCount.
Variable A : Type.
Variable key : A -> nat.

Lemma insert_desc_sorted x l :
  StronglySorted (fun a b => key b <= key a) l ->
  StronglySorted (fun a b => key b <= key a) (insert_desc key Nat.ltb x l).
Proof.
  induction 1 as [|y l S IH F]; simpl.
  - repeat constructor.
  - destruct (Nat.ltb_spec (key x) (key y)).
    + constructor; auto.
      rewrite Forall_forall in *. intros z I.
      apply (Permutation_in _ (insert_desc_perm key Nat.ltb x l)) in I.
      destruct I as [<- | I]; [lia | auto].
    + constructor; [now constructor|].
      constructor; auto.
      rewrite Forall_forall in *. intros z I. specialize (F z I). lia.
Qed.

Lemma sorted_desc_sorted l :
  StronglySorted (fun a b => key b <= key a) (sorted_desc key Nat.ltb l).
Proof.
  induction l as [|x l IH]; simpl; [constructor | now apply insert_desc_sorted].
Qed.

Lemma sorted_desc_stable n l :
  filter (fun y => key y =? n) (sorted_desc key Nat.ltb l)
  = filter (fun y => key y =? n) l.
Proof.
  apply (sorted_desc_filter key Nat.ltb (fun k => k =? n)).
  intros a b L E. apply Nat.ltb_lt in L. apply Nat.eqb_eq in E.
  apply Nat.eqb_neq. lia.
Qed.
End SortedByCount.

(** ** The index builder *)

Section IndexFacts.
Variable F : FloatOps.
Implicit Types (st : index_state F) (gs : list (generation F)) (ngram : string).
Implicit Types (p : posting F).

Lemma add_posting_freq st n p k :
  Dict.get k (index_freq (add_posting st n p))
  = if String.eqb n k then Some (Dict.get_default n 0 (index_freq st) + 1)
    else Dict.get k (index_freq st).
Proof.
  unfold add_posting.
  assert (E : Dict.get k (incr n (index_freq st))
              = if String.eqb n k then Some (Dict.get_default n 0 (index_freq st) + 1)
                else Dict.get k (index_freq st)).
  { unfold incr. destruct (String.eqb_spec n k) as [<- | N].
    - apply DictFacts.get_set_same.
    - now apply DictFacts.get_set_other. }
  destruct (banned n st); [exact E|].
  match goal with |- context [if ?c then _ else _] => destruct c end; exact E.
Qed.

Lemma add_posting_postings st n p k :
  NoDup (Dict.keys (ngram_to_phrase_and_position st)) ->
  Dict.get k (ngram_to_phrase_and_position (add_posting st n p))
  = if String.eqb n k && negb (banned n st)
    then if 100 <? length (pushed st n p) then None else Some (pushed st n p)
    else Dict.get k (ngram_to_phrase_and_position st).
Proof.
  intros ND. unfold add_posting. fold (pushed st n p).
  destruct (banned n st); simpl; [now rewrite andb_false_r|].
  rewrite andb_true_r.
  unfold Dict.get_default at 1. rewrite DictFacts.get_set_same.
  destruct (100 <? length (pushed st n p)); simpl.
  - destruct (String.eqb_spec n k) as [<- | N].
    + apply DictFacts.get_del_same. now apply DictFacts.NoDup_set.
    + rewrite DictFacts.get_del_other, DictFacts.get_set_other; auto.
  - destruct (String.eqb_spec n k) as [<- | N].
    + apply DictFacts.get_set_same.
    + now apply DictFacts.get_set_other.
Qed.

Lemma add_posting_banned st n p k :
  banned k (add_posting st n p)
  = banned k st
    || (String.eqb k n && negb (banned n st) && (100 <? length (pushed st n p))).
Proof.
  unfold add_posting. fold (pushed st n p).
  destruct (banned n st); simpl.
  - now rewrite andb_false_r, orb_false_r.
  - rewrite andb_true_r. unfold Dict.get_default at 1.
    rewrite DictFacts.get_set_same.
    destruct (100 <? length (pushed st n p)); unfold banned; simpl.
    + rewrite andb_true_r. apply orb_comm.
    + now rewrite andb_false_r, orb_false_r.
Qed.

Lemma add_posting_NoDup st n p :
  NoDup (Dict.keys (index_freq st)) ->
  NoDup (Dict.keys (ngram_to_phrase_and_position st)) ->
  NoDup (Dict.keys (index_freq (add_posting st n p)))
  /\ NoDup (Dict.keys (ngram_to_phrase_and_position (add_posting st n p))).
Proof.
  intros Nf Np. unfold add_posting.
  assert (NoDup (Dict.keys (incr n (index_freq st)))) by now apply DictFacts.NoDup_set.
  destruct (banned n st); [now split|].
  match goal with |- context [if ?c then _ else _] => destruct c end; simpl; split; auto.
  - apply DictFacts.NoDup_del. now apply DictFacts.NoDup_set.
  - now apply DictFacts.NoDup_set.
Qed.

Lemma generated_snoc gs g : generated (gs ++ [g]) = generate (generated gs) g.
Proof. unfold generated. now rewrite fold_left_app. Qed.

Lemma generated_app gs more :
  generated (gs ++ more) = fold_left (@generate F) more (generated gs).
Proof. unfold generated. now rewrite fold_left_app. Qed.

Lemma of_ngram_snoc ngram gs g :
  of_ngram ngram (gs ++ [g])
  = if String.eqb (fst g) ngram then of_ngram ngram gs ++ [snd g] else of_ngram ngram gs.
Proof.
  unfold of_ngram. rewrite filter_app. simpl.
  destruct (String.eqb (fst g) ngram); simpl.
  - now rewrite map_app.
  - now rewrite app_nil_r.
Qed.

Lemma generated_NoDup gs :
  NoDup (Dict.keys (index_freq (generated gs)))
  /\ NoDup (Dict.keys (ngram_to_phrase_and_position (generated gs))).
Proof.
  induction gs as [|g gs IH] using rev_ind.
  - split; constructor.
  - rewrite generated_snoc. destruct IH. now apply add_posting_NoDup.
Qed.

(** What the index holds for an ngram after the generations [gs]: the count
    of its generations, its postings while they are at most 100, and the
    ban from the 101st on. *)
Lemma generated_holds gs ngram :
  let ps := of_ngram ngram gs in
  Dict.get ngram (index_freq (generated gs))
  = (if length ps =? 0 then None else Some (length ps))
  /\ Dict.get ngram (ngram_to_phrase_and_position (generated gs))
     = (if (length ps =? 0) || (100 <? length ps) then None else Some ps)
  /\ banned ngram (generated gs) = (100 <? length ps).
Proof.
  induction gs as [|[n p] gs IH] using rev_ind.
  - repeat split.
  - destruct IH as (Hf & Hp & Hb). simpl in Hf, Hp, Hb.
    cbv zeta. rewrite generated_snoc, of_ngram_snoc. unfold generate.
    simpl fst. simpl snd.
    rewrite add_posting_freq, add_posting_banned.
    rewrite add_posting_postings by apply generated_NoDup.
    rewrite (String.eqb_sym ngram n).
    destruct (String.eqb_spec n ngram) as [-> | N]; simpl.
    2:{ rewrite orb_false_r. auto. }
    unfold pushed, Dict.get_default. rewrite Hf, Hp, Hb, length_app. simpl.
    set (len := length (of_ngram ngram gs)) in *.
    replace (len + 1 =? 0) with false by (symmetry; apply Nat.eqb_neq; lia).
    destruct (Nat.eqb_spec len 0) as [Z | NZ]; simpl.
    + rewrite Z. simpl. unfold len in Z. destruct (of_ngram ngram gs); [|discriminate].
      repeat split.
    + destruct (Nat.ltb_spec 100 len); simpl.
      * destruct (Nat.ltb_spec 100 (len + 1)); [|lia]. repeat split.
      * rewrite length_app. simpl. fold len.
        destruct (Nat.ltb_spec 100 (len + 1)); repeat split.
Qed.

Lemma fold_left_flat_map (A B S : Type) (f : S -> B -> S) (g : A -> list B) l s :
  fold_left f (flat_map g l) s = fold_left (fun s x => fold_left f (g x) s) l s.
Proof.
  revert s. induction l as [|x l IH]; simpl; intros s; auto.
  now rewrite fold_left_app, IH.
Qed.

Lemma fold_left_map (A B S : Type) (f : S -> B -> S) (g : A -> B) l s :
  fold_left f (map g l) s = fold_left (fun s x => f s (g x)) l s.
Proof. revert s. induction l as [|x l IH]; simpl; intros s; auto. Qed.

Lemma fold_left_ext (A S : Type) (f g : S -> A -> S) l s :
  (forall s x, f s x = g s x) -> fold_left f l s = fold_left g l s.
Proof.
  intros E. revert s. induction l as [|x l IH]; simpl; intros s; auto.
  now rewrite E, IH.
Qed.

Lemma index_phrase_generations phrase (index_keys : list (covering F)) st :
  index_phrase phrase index_keys st
  = fold_left (@generate F) (generations_of phrase index_keys) st.
Proof.
  unfold index_phrase, generations_of. rewrite fold_left_flat_map.
  apply fold_left_ext. intros s b. unfold index_position.
  rewrite fold_left_map. apply fold_left_ext. now intros s' [ngram lp].
Qed.

Lemma index_lines_generations (vocab : vocab_t F) lines st0 st :
  for_each (index_line vocab) lines st0 = Ok st ->
  st = fold_left (@generate F) (run_generations vocab lines) st0.
Proof.
  revert st0. induction lines as [|line lines IH]; simpl; intros st0 H.
  - now inversion H.
  - unfold run_generations. simpl. rewrite fold_left_app.
    fold (run_generations vocab lines).
    unfold index_line, line_generations in *.
    destruct (process_line line) as [[[phrase ?] ?]|]; simpl in *; auto.
    destruct (expand vocab (Str.split Str.space phrase)); simpl in *; [|discriminate].
    rewrite <- index_phrase_generations. auto.
Qed.

Lemma write_index_rows st :
  write_index st = flat_map (rows_of st) (map fst (by_popularity st)).
Proof. unfold write_index, rows_of. now rewrite flat_map_concat_map, flat_map_concat_map, map_map. Qed.

Lemma rows_of_generated gs ngram :
  rows_of (generated gs) ngram
  = if length (of_ngram ngram gs) <=? 100
    then map (index_row ngram) (of_ngram ngram gs) else [].
Proof.
  unfold rows_of, Dict.get_default.
  destruct (generated_holds gs ngram) as (_ & -> & _).
  destruct (Nat.eqb_spec (length (of_ngram ngram gs)) 0) as [Z | NZ]; simpl.
  - destruct (of_ngram ngram gs); [reflexivity | discriminate].
  - destruct (Nat.ltb_spec 100 (length (of_ngram ngram gs)));
      destruct (Nat.leb_spec (length (of_ngram ngram gs)) 100); auto; lia.
Qed.

End IndexFacts.

Section IndexClaims.
Variable F : FloatOps.
Implicit Types (st : index_state F) (gs : list (generation F)) (ngram : string).
Implicit Types (p : posting F).

Lemma of_ngram_app ngram gs more :
  of_ngram ngram (gs ++ more) = of_ngram ngram gs ++ of_ngram ngram more.
Proof. unfold of_ngram. now rewrite filter_app, map_app. Qed.

Lemma generated_count gs ngram :
  Dict.get_default ngram 0 (index_freq (generated gs)) = length (of_ngram ngram gs).
Proof.
  unfold Dict.get_default. destruct (generated_holds gs ngram) as (-> & _).
  now destruct (Nat.eqb_spec (length (of_ngram ngram gs)) 0).
Qed.

(** C4: the popularity counter of an ngram grows by one on every
    generation, banned or not.  A banned ngram gets no posting.  An ngram
    that is not banned gets the posting appended to its list; when that
    leaves more than 100 postings the ngram is banned and its list is
    deleted.  From then on, whatever is generated, the ngram stays banned
    and without postings while its counter keeps counting. *)
Theorem add_posting_counts_and_bans gs ngram p :
  let st := generated gs in
  let st' := add_posting st ngram p in
  Dict.get_default ngram 0 (index_freq st')
  = Dict.get_default ngram 0 (index_freq st) + 1
  /\ (banned ngram st = true ->
      ngram_to_phrase_and_position st' = ngram_to_phrase_and_position st
      /\ ban_ngram st' = ban_ngram st)
  /\ (banned ngram st = false -> length (pushed st ngram p) <= 100 ->
      Dict.get ngram (ngram_to_phrase_and_position st') = Some (pushed st ngram p)
      /\ banned ngram st' = false)
  /\ (banned ngram st = false -> 100 < length (pushed st ngram p) ->
      Dict.get ngram (ngram_to_phrase_and_position st') = None
      /\ banned ngram st' = true)
  /\ (banned ngram st' = true ->
      forall more,
        let st'' := fold_left (@generate F) more st' in
        banned ngram st'' = true
        /\ Dict.get ngram (ngram_to_phrase_and_position st'') = None
        /\ Dict.get_default ngram 0 (index_freq st'')
           = Dict.get_default ngram 0 (index_freq st') + length (of_ngram ngram more)).
Proof.
  intros st st'.
  assert (ND : NoDup (Dict.keys (ngram_to_phrase_and_position st)))
    by apply generated_NoDup.
  split; [|split; [|split; [|split]]].
  - unfold st', Dict.get_default at 1.
    now rewrite add_posting_freq, String.eqb_refl.
  - intros B. unfold st', add_posting. rewrite B. split; reflexivity.
  - intros B L. unfold st'.
    rewrite add_posting_postings, add_posting_banned, B, String.eqb_refl by assumption.
    simpl. destruct (Nat.ltb_spec 100 (length (pushed st ngram p))); [lia | auto].
  - intros B L. unfold st'.
    rewrite add_posting_postings, add_posting_banned, B, String.eqb_refl by assumption.
    simpl. destruct (Nat.ltb_spec 100 (length (pushed st ngram p))); [auto | lia].
  - intros B more st''.
    assert (E' : st' = generated (gs ++ [(ngram, p)])) by now rewrite generated_snoc.
    assert (E'' : st'' = generated ((gs ++ [(ngram, p)]) ++ more))
      by now rewrite generated_app, <- E'.
    rewrite E'', E', !generated_count, of_ngram_app, length_app.
    split; [|split; [|reflexivity]].
    + destruct (generated_holds ((gs ++ [(ngram, p)]) ++ more) ngram) as (_ & _ & ->).
      rewrite E' in B.
      destruct (generated_holds (gs ++ [(ngram, p)]) ngram) as (_ & _ & B').
      rewrite B' in B. apply Nat.ltb_lt in B. apply Nat.ltb_lt.
      rewrite of_ngram_app, length_app. lia.
    + destruct (generated_holds ((gs ++ [(ngram, p)]) ++ more) ngram) as (_ & -> & _).
      rewrite E' in B.
      destruct (generated_holds (gs ++ [(ngram, p)]) ngram) as (_ & _ & B').
      rewrite B' in B. apply Nat.ltb_lt in B.
      rewrite of_ngram_app, length_app.
      match goal with |- context [100 <? ?n] => destruct (Nat.ltb_spec 100 n); [|lia] end.
      now rewrite orb_true_r.
Qed.

Lemma perm_del (V : Type) k (v : V) (d : Dict.t V) :
  Dict.get k d = Some v -> Permutation d ((k, v) :: Dict.del k d).
Proof.
  induction d as [|[k0 v0] d IH]; simpl; [discriminate|].
  destruct (String.eqb_spec k k0) as [-> | N]; intros H.
  - inversion H; subst. reflexivity.
  - rewrite (IH H) at 1. apply perm_swap.
Qed.

Lemma flat_map_agree (A B : Type) (f g : A -> list B) l :
  (forall a, In a l -> f a = g a) -> flat_map f l = flat_map g l.
Proof.
  induction l as [|x l IH]; simpl; intros E; auto.
  rewrite E, IH; auto.
Qed.

(** Going through a dictionary by a duplicate-free list of keys that
    covers it visits every entry once. *)
Lemma flat_map_by_keys (V B : Type) (h : string -> list V -> list B) :
  (forall k, h k [] = []) ->
  forall (ks : list string) (d : Dict.t (list V)),
    NoDup ks -> NoDup (Dict.keys d) -> incl (Dict.keys d) ks ->
    Permutation (flat_map (fun k => h k (Dict.get_default k [] d)) ks)
                (flat_map (fun kv => h (fst kv) (snd kv)) d).
Proof.
  intros Hnil. induction ks as [|k ks IH]; intros d NDk NDd Inc.
  - destruct d as [|[k v] d]; [constructor|].
    exfalso. apply (Inc k). now left.
  - inversion NDk as [|? ? Nk NDk']; subst. simpl.
    destruct (Dict.get k d) as [v|] eqn:G.
    + rewrite (Permutation_flat_map _ (perm_del _ _ G)). simpl.
      unfold Dict.get_default at 1. rewrite G.
      apply Permutation_app_head.
      rewrite <- (IH (Dict.del k d)); auto.
      * apply Permutation_refl'. apply flat_map_agree. intros k' I.
        unfold Dict.get_default. rewrite DictFacts.get_del_other; auto.
        intros ->. contradiction.
      * now apply DictFacts.NoDup_del.
      * intros k' I. assert (I' := DictFacts.In_keys_del _ _ _ I).
        destruct (Inc k' I') as [<- | ?]; auto.
        exfalso. apply (proj1 (DictFacts.get_None_keys k (Dict.del k d))); auto.
        now apply DictFacts.get_del_same.
    + unfold Dict.get_default at 1. rewrite G, Hnil. simpl.
      apply IH; auto.
      intros k' I. destruct (Inc k' I) as [<- | ?]; auto.
      exfalso. apply (proj1 (DictFacts.get_None_keys k d)); auto.
  Qed.

Lemma generated_postings_counted gs :
  incl (Dict.keys (ngram_to_phrase_and_position (generated gs)))
       (Dict.keys (index_freq (generated gs))).
Proof.
  intros k I.
  destruct (Dict.get k (index_freq (generated gs))) eqn:G.
  - apply DictFacts.get_Some_In in G. change k with (fst (k, n)). now apply in_map.
  - exfalso. revert I. apply DictFacts.get_None_keys.
    destruct (generated_holds gs k) as (Hf & -> & _). rewrite G in Hf.
    destruct (length (of_ngram k gs) =? 0); [reflexivity | discriminate].
Qed.

Lemma by_popularity_keys st :
  Permutation (map fst (by_popularity st)) (Dict.keys (index_freq st)).
Proof. apply Permutation_map, sorted_desc_perm. Qed.

Lemma write_index_all gs :
  Permutation (write_index (generated gs))
    (flat_map (fun kv => map (index_row (fst kv)) (snd kv))
       (ngram_to_phrase_and_position (generated gs))).
Proof.
  rewrite write_index_rows.
  rewrite (Permutation_flat_map _ (by_popularity_keys (generated gs))).
  destruct (generated_NoDup gs) as [Nf Np].
  apply (flat_map_by_keys (fun k ps => map (index_row k) ps)); auto.
  apply generated_postings_counted.
Qed.

(** Every run of [index_by_vocab] that ends writes the index of its
    generations. *)
Lemma index_by_vocab_run vocab_file lines out :
  index_by_vocab F vocab_file lines = Ok out ->
  exists rows vocab,
    vocab_file = Some rows /\ load_vocab F rows = Ok vocab
    /\ out = write_index (generated (run_generations vocab lines)).
Proof.
  unfold index_by_vocab. destruct vocab_file as [rows|]; [|discriminate].
  destruct (load_vocab F rows) as [vocab|] eqn:L; simpl; [|discriminate].
  destruct (for_each (index_line vocab) lines (empty_index F)) as [st|] eqn:R;
    simpl; [|discriminate].
  intros H. inversion H; subst. exists rows, vocab. repeat split; auto.
  f_equal. now apply index_lines_generations.
Qed.

(** C1 (amended): in every run of the indexer, the output is made of the
    lines of each ngram, every ngram once, and the ngrams that have lines
    of their own there are exactly the ngrams generated in the run; the
    lines written for an ngram are the postings of all its generations, in
    their order, while there are at most 100 of them, and they do stand in
    the output, together; with more than 100 generations (as after 101
    phrases that each generate it once) the ngram is banned and no line at
    all is written for it. *)
Theorem banned_ngram_is_not_written vocab_file lines out :
  index_by_vocab F vocab_file lines = Ok out ->
  exists rows vocab,
    vocab_file = Some rows /\ load_vocab F rows = Ok vocab /\
    let gs := run_generations vocab lines in
    let st := generated gs in
    out = flat_map (rows_of st) (map fst (by_popularity st))
    /\ NoDup (map fst (by_popularity st))
    /\ (forall ngram,
          In ngram (map fst (by_popularity st)) <-> of_ngram ngram gs <> [])
    /\ (forall ngram,
          of_ngram ngram gs <> [] ->
          length (of_ngram ngram gs) <= 100 ->
          exists before after,
            out = before ++ map (index_row ngram) (of_ngram ngram gs) ++ after)
    /\ forall ngram,
        rows_of st ngram
        = (if length (of_ngram ngram gs) <=? 100
           then map (index_row ngram) (of_ngram ngram gs) else [])
        /\ (100 < length (of_ngram ngram gs) ->
            banned ngram st = true /\ rows_of st ngram = []).
Proof.
  intros H. destruct (index_by_vocab_run _ _ H) as (rows & vocab & E & L & O).
  exists rows, vocab. split; [assumption|]. split; [assumption|].
  cbv zeta. set (gs := run_generations vocab lines) in *.
  assert (W : out = flat_map (rows_of (generated gs)) (map fst (by_popularity (generated gs))))
    by now rewrite <- write_index_rows.
  assert (K : forall ngram,
             In ngram (map fst (by_popularity (generated gs))) <-> of_ngram ngram gs <> []).
  { intros ngram. split.
    - intros I N.
      apply (Permutation_in _ (by_popularity_keys (generated gs))) in I.
      revert I. apply DictFacts.get_None_keys.
      destruct (generated_holds gs ngram) as (-> & _). now rewrite N.
    - intros N.
      apply (Permutation_in _ (Permutation_sym (by_popularity_keys (generated gs)))).
      destruct (in_dec string_dec ngram (Dict.keys (index_freq (generated gs))))
        as [I | NI]; [exact I|].
      exfalso. apply DictFacts.get_None_keys in NI.
      destruct (generated_holds gs ngram) as (Hf & _). rewrite NI in Hf.
      destruct (of_ngram ngram gs); [now apply N | discriminate]. }
  split; [exact W|]. split; [|split; [exact K|split]].
  - eapply Permutation_NoDup; [symmetry; apply by_popularity_keys|].
    apply generated_NoDup.
  - intros ngram N Le. apply K in N. apply in_split in N.
    destruct N as (k1 & k2 & Ek).
    exists (flat_map (rows_of (generated gs)) k1), (flat_map (rows_of (generated gs)) k2).
    rewrite W, Ek, flat_map_app. cbn [flat_map].
    rewrite rows_of_generated. apply Nat.leb_le in Le. now rewrite Le.
  - intros ngram. rewrite rows_of_generated. split; [reflexivity|].
    intros Big. split.
    + destruct (generated_holds gs ngram) as (_ & _ & ->).
      now apply Nat.ltb_lt.
    + destruct (Nat.leb_spec (length (of_ngram ngram gs)) 100);
        [lia | reflexivity].
Qed.

(** C8: the written index has one line for every posting that survives;
    the lines of an ngram stand together, the ngrams in descending order of
    their popularity counters and, where the counters are equal, in the
    order of their first generation; the lines of an ngram are its postings
    in the order of insertion; a line is the ngram, the phrase, the start
    position, the span length and the log-probability, separated by tabs. *)
Theorem written_index_order vocab_file lines out :
  index_by_vocab F vocab_file lines = Ok out ->
  exists rows vocab,
    vocab_file = Some rows /\ load_vocab F rows = Ok vocab /\
    let gs := run_generations vocab lines in
    let st := generated gs in
    out = flat_map (rows_of st) (map fst (by_popularity st))
    /\ Permutation out
         (flat_map (fun kv => map (index_row (fst kv)) (snd kv))
            (ngram_to_phrase_and_position st))
    /\ NoDup (map fst (by_popularity st))
    /\ (forall ngram n,
          In (ngram, n) (by_popularity st) <-> n = length (of_ngram ngram gs) /\ n <> 0)
    /\ StronglySorted (fun a b => snd b <= snd a) (by_popularity st)
    /\ (forall n,
          filter (fun a => snd a =? n) (by_popularity st)
          = filter (fun a => snd a =? n) (index_freq st))
    /\ (forall ngram,
          Dict.get_default ngram [] (ngram_to_phrase_and_position st)
          = if length (of_ngram ngram gs) <=? 100 then of_ngram ngram gs else [])
    /\ (forall ngram phrase b span lp,
          index_row ngram (phrase, b, span, lp)
          = (ngram ++ TAB ++ phrase ++ TAB ++ Str.of_nat b ++ TAB ++ Str.of_nat span
                   ++ TAB ++ fstr F lp ++ NL)%string).
Proof.
  intros H. destruct (index_by_vocab_run _ _ H) as (rows & vocab & E & L & O).
  exists rows, vocab. split; [assumption|]. split; [assumption|].
  cbv zeta. set (gs := run_generations vocab lines).
  destruct (generated_NoDup gs) as [Nf Np].
  split; [now rewrite <- write_index_rows|].
  split; [rewrite O; apply write_index_all|].
  split.
  { eapply Permutation_NoDup; [symmetry; apply by_popularity_keys | exact Nf]. }
  split.
  { intros ngram n. unfold by_popularity. rewrite sorted_desc_In.
    destruct (generated_holds gs ngram) as (Hf & _). split.
    - intros I. apply DictFacts.In_get in I; auto. rewrite I in Hf.
      destruct (Nat.eqb_spec (length (of_ngram ngram gs)) 0); [discriminate|].
      inversion Hf. auto.
    - intros [-> NZ]. apply DictFacts.get_Some_In. rewrite Hf.
      destruct (Nat.eqb_spec (length (of_ngram ngram gs)) 0); [contradiction | reflexivity]. }
  split; [apply sorted_desc_sorted|].
  split; [intros n; apply sorted_desc_stable|].
  split; [|reflexivity].
  intros ngram. unfold Dict.get_default.
  destruct (generated_holds gs ngram) as (_ & -> & _).
  destruct (Nat.eqb_spec (length (of_ngram ngram gs)) 0) as [Z | NZ]; simpl.
  - destruct (of_ngram ngram gs); [reflexivity | discriminate].
  - destruct (Nat.ltb_spec 100 (length (of_ngram ngram gs)));
      destruct (Nat.leb_spec (length (of_ngram ngram gs)) 100); auto; lia.
Qed.

End IndexClaims.

(** ** The phrase expander *)

Lemma for_each_invariant (A S : Type) (P : S -> Prop) (body : S -> A -> result S) xs :
  (forall s x s', In x xs -> P s -> body s x = Ok s' -> P s') ->
  forall s s', P s -> for_each body xs s = Ok s' -> P s'.
Proof.
  induction xs as [|x xs IH]; simpl; intros Step s s' Ps H.
  - inversion H; subst; auto.
  - destruct (body s x) as [s1|] eqn:B; simpl in H; [|discriminate].
    apply (IH (fun s x s' I => Step s x s' (or_intror I)) s1); auto.
    apply (Step s x); auto.
Qed.

Lemma fold_left_invariant (A S : Type) (P : S -> Prop) (body : S -> A -> S) xs :
  (forall s x, In x xs -> P s -> P (body s x)) ->
  forall s, P s -> P (fold_left body xs s).
Proof.
  induction xs as [|x xs IH]; simpl; intros Step s Ps; [assumption|].
  apply IH; auto.
Qed.

Lemma nth_set_nth (A : Type) (d : A) i j (x : A) l :
  nth j (set_nth i x l) d = if (i =? j) && (i <? length l) then x else nth j l d.
Proof.
  revert i j. induction l as [|y l IH]; intros i j.
  - simpl. replace (i <? 0) with false by (symmetry; apply Nat.ltb_ge; lia).
    now rewrite andb_false_r; destruct i.
  - destruct i as [|i], j as [|j]; simpl; auto.
Qed.

Lemma length_set_nth (A : Type) i (x : A) l : length (set_nth i x l) = length l.
Proof. revert i. induction l as [|y l IH]; intros [|i]; simpl; auto. Qed.

Lemma in_range a b x : In x (range a b) <-> a <= x < b.
Proof. unfold range. rewrite in_seq. lia. Qed.

Lemma length_append (s t : string) :
  String.length (s ++ t) = String.length s + String.length t.
Proof. induction s as [|c s IH]; simpl; auto. Qed.

Lemma append_inv_tail (s t u : string) : (s ++ u = t ++ u)%string -> s = t.
Proof.
  revert t. induction s as [|c s IH]; intros [|d t] H; simpl in H; auto.
  - exfalso. apply (f_equal String.length) in H. simpl in H.
    rewrite length_append in H. lia.
  - exfalso. apply (f_equal String.length) in H. simpl in H.
    rewrite length_append in H. lia.
  - inversion H; subst. f_equal. auto.
Qed.

Section ExpanderFacts.
Variable F : FloatOps.
Variable vocab : vocab_t F.
Variable inputs : list string.
Implicit Types (index_keys : list (covering F)).

Lemma extend_In rep lp begin b cur acc k v :
  In (k, v) (fold_left (extend rep lp begin b) cur acc) ->
  In (k, v) acc
  \/ exists ngram lp_prev,
      In (ngram, lp_prev) cur
      /\ String.length ngram + String.length rep <= 10
      /\ b + Str.count Str.space ngram = begin
      /\ fgt F (fadd F lp_prev lp) (minus_four F) = true
      /\ k = (ngram ++ rep ++ " ")%string /\ v = fadd F lp_prev lp.
Proof.
  revert acc. induction cur as [|[ngram lp_prev] cur IH]; simpl; intros acc I; auto.
  apply IH in I. destruct I as [I | (n & l & I & ?)].
  2:{ right. exists n, l. auto. }
  destruct ((String.length ngram + String.length rep <=? 10)
            && (b + Str.count Str.space ngram =? begin)) eqn:G; auto.
  destruct (fgt F (fadd F lp_prev lp) (minus_four F)) eqn:T; auto.
  apply DictFacts.In_set in I. destruct I as [[-> ->] | I]; auto.
  apply andb_prop in G. destruct G as [G1 G2].
  apply Nat.leb_le in G1. apply Nat.eqb_eq in G2.
  right. exists ngram, lp_prev. repeat split; auto.
Qed.

Lemma grow_recorded rep lp begin end_ index_keys b :
  candidate vocab inputs begin end_ rep lp ->
  end_ - 5 <= b < end_ ->
  all_recorded vocab inputs index_keys ->
  all_recorded vocab inputs (grow rep lp begin index_keys b).
Proof.
  intros C R Inv b' ngram' lp'. unfold grow.
  rewrite nth_set_nth.
  match goal with |- context [if ?c then _ else _] => destruct c eqn:E end;
    [|exact (Inv _ _ _)].
  apply andb_prop in E. destruct E as [E _]. apply Nat.eqb_eq in E. subst b'.
  intros I.
  apply DictFacts.In_union in I. destruct I as [I | I]; [now apply Inv|].
  apply extend_In in I.
  destruct I as [[] | (ngram & lp_prev & I & L & P & T & -> & ->)].
  eapply recorded_extension; eauto.
Qed.

Lemma add_replacement_recorded begin end_ index_keys entry index_keys' targets :
  begin < end_ -> end_ <= begin + 4 -> end_ <= length inputs ->
  Dict.get (Str.join " " (slice inputs begin end_)) vocab = Some targets ->
  In entry targets ->
  all_recorded vocab inputs index_keys ->
  add_replacement begin end_ index_keys entry = Ok index_keys' ->
  all_recorded vocab inputs index_keys'.
Proof.
  intros B1 B2 B3 G I Inv. destruct entry as [target p]. unfold add_replacement.
  destruct (math_log F p) as [lp|] eqn:L; [|discriminate].
  destruct (String.eqb_spec (Str.strip (Str.replace "<DELETE>" "=" target)) "") as [Z | NZ].
  { intros H. inversion H; subst. assumption. }
  set (rep := Str.replace "<DELETE>" "=" target) in *.
  assert (C : candidate vocab inputs begin end_ rep lp).
  { repeat split; auto. exists targets, target, p. repeat split; auto. }
  assert (Inv' : all_recorded vocab inputs
                   (fold_left (grow rep lp begin) (range (Nat.max 0 (end_ - 5)) end_)
                      index_keys)).
  { apply fold_left_invariant; auto.
    intros s b Ib. apply grow_recorded with (end_ := end_); auto.
    apply in_range in Ib. lia. }
  intros H. inversion H; subst. clear H.
  destruct (fgt F lp (minus_four F)) eqn:T; [|assumption].
  intros b ngram' lp'. rewrite nth_set_nth.
  match goal with |- context [if ?c then _ else _] => destruct c eqn:E end;
    [|exact (Inv' _ _ _)].
  apply andb_prop in E. destruct E as [E _]. apply Nat.eqb_eq in E. subst b.
  intros I'. apply DictFacts.In_set in I'. destruct I' as [[-> ->] | I'].
  - eapply recorded_fresh; eauto.
  - now apply Inv'.
Qed.

Lemma expand_window_recorded begin end_ index_keys index_keys' :
  begin < end_ -> end_ <= begin + 4 -> end_ <= length inputs ->
  all_recorded vocab inputs index_keys ->
  expand_window vocab inputs begin index_keys end_ = Ok index_keys' ->
  all_recorded vocab inputs index_keys'.
Proof.
  intros B1 B2 B3 Inv. unfold expand_window.
  destruct (Dict.get (Str.join " " (slice inputs begin end_)) vocab) as [targets|] eqn:G.
  - intros H. eapply for_each_invariant with (P := all_recorded vocab inputs); [| |exact H]; auto.
    intros s x s' Ix Ps. now apply add_replacement_recorded with (targets := targets).
  - intros H. inversion H; subst. assumption.
Qed.

Lemma expand_recorded index_keys :
  expand vocab inputs = Ok index_keys -> all_recorded vocab inputs index_keys.
Proof.
  unfold expand. intros H.
  eapply for_each_invariant with (P := all_recorded vocab inputs); [| |exact H].
  - intros s begin s' Ib Ps. unfold expand_from. intros H'.
    eapply for_each_invariant with (P := all_recorded vocab inputs); [| |exact H']; auto.
    intros s0 end_ s0' Ie. apply in_range in Ie.
    apply expand_window_recorded; lia.
  - clear H. intros b ngram lp I. exfalso. revert b I.
    induction inputs as [|x xs IH]; intros [|n]; simpl; auto. apply IH.
Qed.

Lemma extend_NoDup rep lp begin b cur (acc : covering F) :
  NoDup (Dict.keys acc) -> NoDup (Dict.keys (fold_left (extend rep lp begin b) cur acc)).
Proof.
  revert acc. induction cur as [|[ngram lp_prev] cur IH]; simpl; intros acc ND; auto.
  apply IH.
  destruct ((String.length ngram + String.length rep <=? 10)
            && (b + Str.count Str.space ngram =? begin)); auto.
  destruct (fgt F (fadd F lp_prev lp) (minus_four F)); auto.
  now apply DictFacts.NoDup_set.
Qed.

Lemma extend_get_other rep lp begin b cur (acc : covering F) ngram :
  ~ In ngram (Dict.keys cur) ->
  Dict.get (ngram ++ rep ++ " ") (fold_left (extend rep lp begin b) cur acc)
  = Dict.get (ngram ++ rep ++ " ") acc.
Proof.
  revert acc. induction cur as [|[n l] cur IH]; simpl; intros acc N; auto.
  rewrite IH by tauto.
  destruct ((String.length n + String.length rep <=? 10)
            && (b + Str.count Str.space n =? begin)); auto.
  destruct (fgt F (fadd F l lp) (minus_four F)); auto.
  apply DictFacts.get_set_other. intros E. apply append_inv_tail in E. tauto.
Qed.

Lemma extend_get rep lp begin b cur (acc : covering F) ngram lp_prev :
  NoDup (Dict.keys cur) ->
  In (ngram, lp_prev) cur ->
  String.length ngram + String.length rep <= 10 ->
  b + Str.count Str.space ngram = begin ->
  fgt F (fadd F lp_prev lp) (minus_four F) = true ->
  Dict.get (ngram ++ rep ++ " ") (fold_left (extend rep lp begin b) cur acc)
  = Some (fadd F lp_prev lp).
Proof.
  intros ND I L P T. revert acc.
  induction cur as [|[n l] cur IH]; simpl; intros acc; [contradiction|].
  inversion ND as [|? ? Nn ND']; subst. destruct I as [E | I].
  - inversion E; subst. rewrite extend_get_other by assumption.
    apply Nat.leb_le in L. rewrite L, Nat.eqb_refl, T. simpl.
    apply DictFacts.get_set_same.
  - now apply IH.
Qed.

Lemma grow_distinct rep lp begin index_keys b :
  all_distinct index_keys -> all_distinct (grow rep lp begin index_keys b).
Proof.
  intros Inv b'. unfold grow. rewrite nth_set_nth.
  match goal with |- context [if ?c then _ else _] => destruct c end; [|apply Inv].
  apply DictFacts.NoDup_union, Inv.
Qed.

Lemma add_replacement_distinct begin end_ index_keys entry index_keys' :
  all_distinct index_keys ->
  add_replacement begin end_ index_keys entry = Ok index_keys' ->
  all_distinct index_keys'.
Proof.
  intros Inv. destruct entry as [target p]. unfold add_replacement.
  destruct (math_log F p) as [lp|]; [|discriminate].
  destruct (String.eqb (Str.strip (Str.replace "<DELETE>" "=" target)) "").
  { intros H. inversion H; subst. assumption. }
  set (rep := Str.replace "<DELETE>" "=" target).
  assert (Inv' : all_distinct
                   (fold_left (grow rep lp begin) (range (Nat.max 0 (end_ - 5)) end_)
                      index_keys)).
  { apply fold_left_invariant; auto. intros s b _. apply grow_distinct. }
  intros H. inversion H; subst. clear H.
  destruct (fgt F lp (minus_four F)); [|assumption].
  intros b. rewrite nth_set_nth.
  match goal with |- context [if ?c then _ else _] => destruct c end; [|apply Inv'].
  apply DictFacts.NoDup_set, Inv'.
Qed.

Lemma expand_distinct index_keys :
  expand vocab inputs = Ok index_keys -> all_distinct index_keys.
Proof.
  unfold expand. intros H.
  eapply for_each_invariant with (P := @all_distinct F); [| |exact H].
  - intros s begin s' _ Ps. unfold expand_from. intros H'.
    eapply for_each_invariant with (P := @all_distinct F); [| |exact H']; auto.
    intros s0 end_ s0' _ Ps0. unfold expand_window.
    destruct (Dict.get (Str.join " " (slice inputs begin end_)) vocab) as [targets|].
    + intros H''.
      eapply for_each_invariant with (P := @all_distinct F); [| |exact H'']; auto.
      intros s1 x s1' _. apply add_replacement_distinct.
    + intros H''. inversion H''; subst. assumption.
  - clear H. intros b. revert b.
    induction inputs as [|x xs IH]; intros [|n]; simpl; try constructor. apply IH.
Qed.

End ExpanderFacts.

Lemma append_empty_r (s : string) : (s ++ "")%string = s.
Proof. induction s as [|c s IH]; simpl; congruence. Qed.

Lemma append_assoc (s t u : string) : ((s ++ t) ++ u = s ++ t ++ u)%string.
Proof. induction s as [|c s IH]; simpl; congruence. Qed.

Section ExpanderClaims.
Variable F : FloatOps.
Variable vocab : vocab_t F.
Variable inputs : list string.
Implicit Types (index_keys : list (covering F)).

Lemma recorded_starts_at b ngram lp :
  recorded vocab inputs b ngram lp ->
  exists end_ rep lp0 rest,
    candidate vocab inputs b end_ rep lp0 /\ ngram = (rep ++ " " ++ rest)%string.
Proof.
  induction 1 as [end_ rep lp C T | ngram lp_prev begin end_ rep lp R IH C Rg L P T].
  - exists end_, rep, lp, "". auto.
  - destruct IH as (e0 & rep0 & lp0 & rest & C0 & ->).
    exists e0, rep0, lp0, (rest ++ rep ++ " ")%string. split; auto.
    now rewrite !append_assoc.
Qed.

Lemma recorded_above b ngram lp :
  recorded vocab inputs b ngram lp -> fgt F lp (minus_four F) = true.
Proof. now destruct 1. Qed.

(** C2 (amended): the coverings are kept under the token at which they
    start.  A rendering stored under [b] begins with a replacement of a
    window that begins at token [b]; every extension appends a replacement
    of a window that begins at [b] plus the number of spaces of the
    rendering so far ([recorded]). *)
Theorem coverings_keyed_by_start index_keys b ngram lp :
  expand vocab inputs = Ok index_keys ->
  In (ngram, lp) (nth b index_keys Dict.empty) ->
  b < length inputs
  /\ recorded vocab inputs b ngram lp
  /\ exists end_ rep lp0 rest,
      candidate vocab inputs b end_ rep lp0 /\ ngram = (rep ++ " " ++ rest)%string.
Proof.
  intros H I. assert (R := @expand_recorded F vocab inputs index_keys H _ _ _ I).
  destruct (recorded_starts_at R) as (end_ & rep & lp0 & rest & C & E).
  split; [|split; [assumption|]].
  - destruct C as (B1 & _ & B3 & _). lia.
  - exists end_, rep, lp0, rest. auto.
Qed.

(** C3 (amended): a rendering that an extension produces has at most 11
    characters: the rendering extended and the replacement have at most 10
    together, and the space that closes the rendering comes on top.  A
    rendering that starts a covering is the replacement and a space, of
    any length. *)
Theorem rendering_length_bound index_keys b ngram lp :
  expand vocab inputs = Ok index_keys ->
  In (ngram, lp) (nth b index_keys Dict.empty) ->
  (exists end_ rep, candidate vocab inputs b end_ rep lp /\ ngram = (rep ++ " ")%string)
  \/ (exists prev lp_prev begin end_ rep lp',
        recorded vocab inputs b prev lp_prev
        /\ candidate vocab inputs begin end_ rep lp'
        /\ ngram = (prev ++ rep ++ " ")%string
        /\ String.length prev + String.length rep <= 10
        /\ String.length ngram <= 11).
Proof.
  intros H I. destruct (@expand_recorded F vocab inputs index_keys H _ _ _ I)
    as [end_ rep lp C T | prev lp_prev begin end_ rep lp R C Rg L P T].
  - left. exists end_, rep. auto.
  - right. exists prev, lp_prev, begin, end_, rep, lp.
    split; [assumption|]. split; [assumption|]. split; [reflexivity|].
    split; [assumption|]. rewrite !length_append. simpl. lia.
Qed.

Lemma by_score_In (c : covering F) x : In x (by_score c) <-> In x c.
Proof. apply sorted_desc_In. Qed.

Lemma generations_of_In phrase index_keys g :
  In g (generations_of phrase index_keys) ->
  exists b ngram lp,
    In (ngram, lp) (nth b index_keys Dict.empty)
    /\ g = (normalize ngram, (phrase, b, Str.count Str.space ngram, lp)).
Proof.
  unfold generations_of. rewrite in_flat_map. intros (b & _ & I).
  apply in_map_iff in I. destruct I as ([ngram lp] & <- & I).
  apply (proj1 (by_score_In _ _)) in I. exists b, ngram, lp. split; [exact I | reflexivity].
Qed.

(** C5: every covering kept and every posting generated has a
    log-probability above -4.0, whether it starts a covering or extends
    one; the comparison is strict, so a score that is -4.0 is not kept.  A
    replacement whose own log-probability is not above -4.0 is never kept
    as a covering by itself, and a table that has only such replacements
    gives no covering and no posting. *)
Theorem scores_above_threshold index_keys :
  expand vocab inputs = Ok index_keys ->
  (forall b ngram lp,
      In (ngram, lp) (nth b index_keys Dict.empty) ->
      fgt F lp (minus_four F) = true
      /\ (fgt F (minus_four F) (minus_four F) = false -> lp <> minus_four F))
  /\ (forall phrase ngram b span lp,
        In (ngram, (phrase, b, span, lp)) (generations_of phrase index_keys) ->
        fgt F lp (minus_four F) = true)
  /\ (forall b end_ rep lp,
        candidate vocab inputs b end_ rep lp ->
        fgt F lp (minus_four F) = false ->
        ~ In ((rep ++ " ")%string, lp) (nth b index_keys Dict.empty))
  /\ ((forall src targets target p lp,
          Dict.get src vocab = Some targets -> In (target, p) targets ->
          math_log F p = Some lp -> fgt F lp (minus_four F) = false) ->
      (forall b, nth b index_keys Dict.empty = Dict.empty)
      /\ forall phrase, generations_of phrase index_keys = []).
Proof.
  intros H.
  assert (A : forall b ngram lp,
             In (ngram, lp) (nth b index_keys Dict.empty) ->
             fgt F lp (minus_four F) = true).
  { intros b ngram lp I. exact (recorded_above (@expand_recorded F vocab inputs index_keys H _ _ _ I)). }
  split; [|split; [|split]].
  - intros b ngram lp I. split; [now apply (A b ngram)|].
    intros Irr ->. rewrite (A _ _ _ I) in Irr. discriminate.
  - intros phrase ngram b span lp I. apply generations_of_In in I.
    destruct I as (b' & ngram' & lp' & I & E). inversion E; subst. now apply (A b' ngram').
  - intros b end_ rep lp C T I. rewrite (A _ _ _ I) in T. discriminate.
  - intros Low.
    assert (E : forall b, nth b index_keys Dict.empty = Dict.empty).
    { intros b. destruct (nth b index_keys Dict.empty) as [|[ngram lp] rest] eqn:N; auto.
      exfalso. assert (I : In (ngram, lp) (nth b index_keys Dict.empty))
        by (rewrite N; now left).
      clear N. apply (@expand_recorded F vocab inputs index_keys H) in I.
      induction I as [end_ rep lp C T | ? ? ? ? ? ? ? IH]; auto.
      destruct C as (_ & _ & _ & targets & target & p & G & It & L & _).
      rewrite (Low _ _ _ _ _ G It L) in T. discriminate. }
    split; [exact E|].
    intros phrase. destruct (generations_of phrase index_keys) as [|g gs] eqn:G; auto.
    exfalso. assert (I : In g (generations_of phrase index_keys)) by (rewrite G; now left).
    apply generations_of_In in I. destruct I as (b & ngram & lp & I & _).
    rewrite E in I. exact I.
Qed.

Lemma length_grow rep lp begin index_keys b :
  length (grow rep lp begin index_keys b) = length index_keys.
Proof. unfold grow. apply length_set_nth. Qed.

Lemma length_grown rep lp begin bs index_keys :
  length (fold_left (grow rep lp begin) bs index_keys) = length index_keys.
Proof.
  revert index_keys. induction bs as [|b bs IH]; simpl; intros index_keys; auto.
  now rewrite IH, length_grow.
Qed.

(** C10: under every position a rendering has one log-probability, during
    the expansion and after it.  A fresh start whose rendering is already
    there leaves the new log-probability in its place (an assignment), and
    so does an extension (the union of the dictionaries, where the new
    renderings win): no rendering is kept twice. *)
Theorem one_score_per_rendering :
  (forall index_keys b ngram lp1 lp2,
      expand vocab inputs = Ok index_keys ->
      In (ngram, lp1) (nth b index_keys Dict.empty) ->
      In (ngram, lp2) (nth b index_keys Dict.empty) ->
      lp1 = lp2)
  /\ (forall begin end_ index_keys entry index_keys',
        all_distinct index_keys ->
        add_replacement begin end_ index_keys entry = Ok index_keys' ->
        all_distinct index_keys')
  /\ (forall begin end_ index_keys target p lp index_keys',
        math_log F p = Some lp ->
        Str.strip (Str.replace "<DELETE>" "=" target) <> "" ->
        fgt F lp (minus_four F) = true ->
        begin < length index_keys ->
        add_replacement begin end_ index_keys (target, p) = Ok index_keys' ->
        Dict.get (Str.replace "<DELETE>" "=" target ++ " ")
          (nth begin index_keys' Dict.empty) = Some lp)
  /\ (forall rep lp begin index_keys b ngram lp_prev,
        all_distinct index_keys ->
        b < length index_keys ->
        In (ngram, lp_prev) (nth b index_keys Dict.empty) ->
        String.length ngram + String.length rep <= 10 ->
        b + Str.count Str.space ngram = begin ->
        fgt F (fadd F lp_prev lp) (minus_four F) = true ->
        Dict.get (ngram ++ rep ++ " ")
          (nth b (grow rep lp begin index_keys b) Dict.empty)
        = Some (fadd F lp_prev lp)).
Proof.
  split; [|split; [|split]].
  - intros index_keys b ngram lp1 lp2 H I1 I2.
    assert (ND := @expand_distinct F vocab inputs index_keys H b).
    apply (DictFacts.In_get _ _ _ ND) in I1.
    apply (DictFacts.In_get _ _ _ ND) in I2. congruence.
  - intros begin end_ index_keys entry index_keys'. apply add_replacement_distinct.
  - intros begin end_ index_keys target p lp index_keys' L NZ T B.
    unfold add_replacement. rewrite L.
    destruct (String.eqb_spec (Str.strip (Str.replace "<DELETE>" "=" target)) "");
      [contradiction|].
    rewrite T. intros H. inversion H; subst. clear H.
    rewrite nth_set_nth, length_grown, Nat.eqb_refl.
    destruct (Nat.ltb_spec begin (length index_keys)); [|lia]. simpl.
    apply DictFacts.get_set_same.
  - intros rep lp begin index_keys b ngram lp_prev ND B I L P T.
    unfold grow. rewrite nth_set_nth, Nat.eqb_refl.
    match goal with
    | |- context [?x <? ?y] =>
        replace (x <? y) with true by (symmetry; apply Nat.ltb_lt; exact B)
    end.
    cbn [andb].
    rewrite DictFacts.get_union by (apply extend_NoDup; constructor).
    rewrite extend_get with (lp_prev := lp_prev); auto.
Qed.

End ExpanderClaims.

(** ** Lines and rows *)

Lemma length_split sep s : length (Str.split sep s) = S (Str.count sep s).
Proof.
  induction s as [|c s IH]; simpl; auto.
  destruct (Ascii.eqb c sep); simpl; [now rewrite IH|].
  destruct (Str.split sep s); simpl in *; congruence.
Qed.


Lemma count_rstrip c s : Str.count c (Str.rstrip s) <= Str.count c s.
Proof.
  induction s as [|d s IH]; simpl; auto.
  destruct (Str.rstrip s) eqn:R; simpl in *.
  - destruct (Str.isspace d); simpl; lia.
  - lia.
Qed.


Lemma for_each_raises (A S : Type) (body : S -> A -> result S) x e :
  (forall s, body s x = Raise e) ->
  forall pre post s, exists e', for_each body (pre ++ x :: post) s = Raise e'.
Proof.
  intros R pre post. induction pre as [|y pre IH]; simpl; intros s.
  - rewrite R. simpl. eauto.
  - destruct (body s y) as [s'|e']; simpl; eauto.
Qed.

Lemma for_each_raises_only (A S : Type) (body : S -> A -> result S) x e :
  (forall s y e', body s y = Raise e' -> e' = e) ->
  (forall s, body s x = Raise e) ->
  forall pre post s, for_each body (pre ++ x :: post) s = Raise e.
Proof.
  intros Only R pre post s.
  destruct (for_each_raises body x R pre post s) as (e' & E). rewrite E. f_equal.
  clear R. revert s E. generalize (pre ++ x :: post).
  induction l as [|y l IH]; simpl; intros s E; [discriminate|].
  destruct (body s y) as [s'|e''] eqn:B; simpl in E.
  - eauto.
  - inversion E; subst. eauto.
Qed.

Section TableClaims.
Variable F : FloatOps.



End TableClaims.

(** ** The facets of an alignment line *)

Lemma get_replacement_vocab_line_raises v line e :
  get_replacement_vocab_line v line = Raise e -> e = ValueError.
Proof.
  unfold get_replacement_vocab_line.
  destruct (process_line line) as [[[src dst] align]|]; [|discriminate].
  destruct (negb _); [congruence | discriminate].
Qed.

Lemma get_sub_misspells_line_raises v line e :
  get_sub_misspells_line v line = Raise e -> e = ValueError.
Proof.
  unfold get_sub_misspells_line.
  destruct (process_line line) as [[[src dst] align]|]; [|discriminate].
  destruct (negb _); [congruence|].
  destruct (fold_left _ _ _). discriminate.
Qed.

Section FacetClaims.
Variable F : FloatOps.

(** C7 (amended): a line whose source facet and alignment facet have
    different numbers of tokens raises ValueError in the modes that read
    the alignment, [get_replacement_vocab] and [get_sub_misspells], wherever
    the line stands in the file.  The mode [index_by_vocab] reads only the
    first facet of a line: it expands and indexes the phrase whatever the
    two other facets are. *)
Theorem length_mismatch_by_mode line src dst align :
  process_line line = Some (src, dst, align) ->
  length (Str.split Str.space src) <> length (Str.split Str.space align) ->
  (forall v, get_replacement_vocab_line v line = Raise ValueError)
  /\ (forall v, get_sub_misspells_line v line = Raise ValueError)
  /\ (forall vocab_file pre post,
        main F "get_replacement_vocab" vocab_file (pre ++ line :: post)
        = Raise ValueError)
  /\ (forall vocab_file pre post,
        main F "get_sub_misspells" vocab_file (pre ++ line :: post)
        = Raise ValueError)
  /\ (forall (vocab : vocab_t F) st,
        index_line vocab st line
        = (index_keys <- expand vocab (Str.split Str.space src) ;;
           Ok (index_phrase src index_keys st)))
  /\ (forall (vocab : vocab_t F) st line' dst' align',
        process_line line' = Some (src, dst', align') ->
        index_line vocab st line' = index_line vocab st line).
Proof.
  intros P N.
  assert (R1 : forall v, get_replacement_vocab_line v line = Raise ValueError).
  { intros v. unfold get_replacement_vocab_line. rewrite P.
    destruct (Nat.eqb_spec (length (Str.split Str.space src))
                (length (Str.split Str.space align))); [contradiction | reflexivity]. }
  assert (R2 : forall v, get_sub_misspells_line v line = Raise ValueError).
  { intros v. unfold get_sub_misspells_line. rewrite P.
    destruct (Nat.eqb_spec (length (Str.split Str.space src))
                (length (Str.split Str.space align))); [contradiction | reflexivity]. }
  split; [exact R1|]. split; [exact R2|].
  split; [|split; [|split]].
  - intros vocab_file pre post.
    change (main F "get_replacement_vocab" vocab_file (pre ++ line :: post))
      with (get_replacement_vocab (pre ++ line :: post)).
    unfold get_replacement_vocab.
    rewrite (for_each_raises_only get_replacement_vocab_line line
               get_replacement_vocab_line_raises R1). reflexivity.
  - intros vocab_file pre post.
    change (main F "get_sub_misspells" vocab_file (pre ++ line :: post))
      with (get_sub_misspells F (pre ++ line :: post)).
    unfold get_sub_misspells.
    rewrite (for_each_raises_only get_sub_misspells_line line
               get_sub_misspells_line_raises R2). reflexivity.
  - intros vocab st. unfold index_line. now rewrite P.
  - intros vocab st line' dst' align' P'. unfold index_line. now rewrite P, P'.
Qed.

End FacetClaims.

(** ** The scenarios *)

Section ScenarioClaims.
Import Scenarios.
Import Binary64.

(** C6: with ["a b" -> "x"] and ["b c" -> "y"], both of probability 0.5,
    the phrase [a b c] gives the covering ["x "] of the window of tokens 0
    and 1, with score ln 0.5 (about -0.693), and its extension ["x y "] by
    the window of tokens 1 and 2, with twice that score (about -1.386);
    both scores are above -4.0, and both renderings are indexed with the
    phrase [a b c].  The logarithm is any function that gives Python's
    value at 0.5. *)
Theorem scenario_a_b_c (log : float -> option float) (str : float -> string) :
  log 0.5%float = Some ln_half ->
  let F := Binary64.ops log str in
  load_vocab F table_abc = Ok vocab_abc
  /\ @expand F vocab_abc ["a"; "b"; "c"]
     = Ok [[("x ", ln_half); ("x y ", ln_quarter)]; [("y ", ln_half)]; []]
  /\ @candidate F vocab_abc ["a"; "b"; "c"] 0 2 "x" ln_half
  /\ @candidate F vocab_abc ["a"; "b"; "c"] 1 3 "y" ln_half
  /\ @recorded F vocab_abc ["a"; "b"; "c"] 0 "x " ln_half
  /\ @recorded F vocab_abc ["a"; "b"; "c"] 0 "x y " ln_quarter
  /\ PrimFloat.add ln_half ln_half = ln_quarter
  /\ fgt F ln_half (minus_four F) = true
  /\ fgt F ln_quarter (minus_four F) = true
  /\ PrimFloat.ltb (-0.6943359375)%float ln_half && PrimFloat.ltb ln_half (-0.6923828125)%float = true
  /\ PrimFloat.ltb (-1.388671875)%float ln_quarter && PrimFloat.ltb ln_quarter (-1.384765625)%float = true
  /\ @run_generations F vocab_abc lines_abc
     = [("x", ("a b c", 0, 1, ln_half));
        ("x y", ("a b c", 0, 2, ln_quarter));
        ("y", ("a b c", 1, 1, ln_half))]
  /\ index_by_vocab F (Some table_abc) lines_abc
     = Ok [index_line_of "x" "a b c" "0" "1" (str ln_half);
           index_line_of "x y" "a b c" "0" "2" (str ln_quarter);
           index_line_of "y" "a b c" "1" "1" (str ln_half)].
Proof.
  intros H. cbv zeta.
  assert (E : @expand (ops log str) vocab_abc ["a"; "b"; "c"]
              = Ok [[("x ", ln_half); ("x y ", ln_quarter)]; [("y ", ln_half)]; []])
    by (vm_compute; rewrite H; vm_compute; reflexivity).
  assert (L : index_line (F := ops log str) vocab_abc (empty_index _)
                (good "a b c" "a b c" "x x y")
              = (index_keys <- @expand (ops log str) vocab_abc ["a"; "b"; "c"] ;;
                 Ok (index_phrase "a b c" index_keys (empty_index _))))
    by reflexivity.
  assert (G : line_generations (F := ops log str) vocab_abc (good "a b c" "a b c" "x x y")
              = match @expand (ops log str) vocab_abc ["a"; "b"; "c"] with
                | Ok index_keys => generations_of "a b c" index_keys
                | Raise _ => []
                end)
    by reflexivity.
  assert (Cx : @candidate (ops log str) vocab_abc ["a"; "b"; "c"] 0 2 "x" ln_half).
  { unfold candidate. simpl length. repeat split; try lia.
    exists [("x", 0.5%float)], "x", 0.5%float.
    split; [reflexivity|]. split; [now left|]. split; [exact H|].
    split; [reflexivity | discriminate]. }
  assert (Cy : @candidate (ops log str) vocab_abc ["a"; "b"; "c"] 1 3 "y" ln_half).
  { unfold candidate. simpl length. repeat split; try lia.
    exists [("y", 0.5%float)], "y", 0.5%float.
    split; [reflexivity|]. split; [now left|]. split; [exact H|].
    split; [reflexivity | discriminate]. }
  assert (Rx : @recorded (ops log str) vocab_abc ["a"; "b"; "c"] 0 "x " ln_half).
  { apply (recorded_fresh (F := ops log str) Cx). reflexivity. }
  split; [vm_compute; reflexivity|].
  split; [exact E|].
  split; [exact Cx|]. split; [exact Cy|]. split; [exact Rx|].
  split.
  { apply (recorded_extension (F := ops log str) Rx Cy); simpl; try lia; reflexivity. }
  do 5 (split; [vm_compute; reflexivity|]).
  split.
  - unfold run_generations, lines_abc. simpl flat_map. rewrite G, E.
    vm_compute. reflexivity.
  - unfold index_by_vocab.
    change (load_vocab (ops log str) table_abc) with (Ok vocab_abc).
    unfold lines_abc, bind at 1, for_each. rewrite L, E.
    vm_compute. reflexivity.
Qed.

(** The scenario with the table of Python's logarithms. *)
Lemma scenario_a_b_c_python :
  log_table 0.5%float = Some ln_half
  /\ index_by_vocab py (Some table_abc) lines_abc
     = Ok [index_line_of "x" "a b c" "0" "1" "-0.6931471805599453";
           index_line_of "x y" "a b c" "0" "2" "-1.3862943611198906";
           index_line_of "y" "a b c" "1" "1" "-0.6931471805599453"].
Proof.
  split; [reflexivity|].
  assert (W := @scenario_a_b_c log_table str_table eq_refl). cbv zeta in W.
  do 12 apply proj2 in W.
  exact W.
Defined.

(** C1, as stated, fails: 101 distinct phrases that each generate the ngram
    [z] once leave no line at all in the output; the 100 lines of the
    first 100 phrases are there only as long as the 101st is not read. *)
Lemma hundred_and_one_phrases_write_nothing :
  distinct (lines_z 101) = true
  /\ map (fun line => length (of_ngram "z" (line_generations vocab_z line))) (lines_z 101)
     = repeat 1 101
  /\ load_vocab py table_z = Ok vocab_z
  /\ index_by_vocab py (Some table_z) (lines_z 101) = Ok []
  /\ (exists out,
        index_by_vocab py (Some table_z) (lines_z 100) = Ok out /\ length out = 100).
Proof.
  split; [vm_compute; reflexivity|].
  split; [vm_compute; reflexivity|].
  split; [vm_compute; reflexivity|].
  split; [vm_compute; reflexivity|].
  eexists. split; vm_compute; reflexivity.
Qed.

Lemma z_is_banned_after_101 :
  index_by_vocab py (Some table_z) (lines_z 101) = Ok []
  /\ 100 < length (of_ngram "z" (run_generations vocab_z (lines_z 101)))
  /\ In "z" (map fst (by_popularity (generated (run_generations vocab_z (lines_z 101)))))
  /\ banned "z" (generated (run_generations vocab_z (lines_z 101))) = true
  /\ rows_of (generated (run_generations vocab_z (lines_z 101))) "z" = [].
Proof.
  assert (H : index_by_vocab py (Some table_z) (lines_z 101) = Ok [])
    by (vm_compute; reflexivity).
  assert (B : 100 < length (of_ngram "z" (run_generations vocab_z (lines_z 101))))
    by (apply Nat.ltb_lt; vm_compute; reflexivity).
  split; [exact H|]. split; [exact B|].
  destruct (@banned_ngram_is_not_written py _ _ _ H)
    as (rows & vocab & E & L & _ & _ & Hk & _ & Hn).
  inversion E; subst rows.
  change (load_vocab py table_z) with (Ok vocab_z) in L. inversion L; subst vocab.
  split; [|exact (proj2 (Hn "z") B)].
  apply (proj2 (Hk "z")).
  intros N. rewrite N in B. exact (Nat.nlt_0_r _ B).
Defined.

(** C2, as stated, fails: the covering of the one-token phrase [z] is kept
    under position 0, where it starts, though it has consumed one token. *)
Lemma covering_kept_under_its_start :
  load_vocab py table_z = Ok vocab_z
  /\ @expand py vocab_z ["z"] = Ok [[("z ", 0%float)]]
  /\ Str.count Str.space "z " = 1
  /\ ~ @keyed_by_end py [[("z ", 0%float)]].
Proof.
  split; [vm_compute; reflexivity|].
  split; [vm_compute; reflexivity|]. split; [reflexivity|].
  intros K. specialize (K 0 "z " 0%float (or_introl eq_refl)). discriminate K.
Qed.

Lemma x_y_is_kept_under_0 :
  @expand py vocab_abc ["a"; "b"; "c"]
  = Ok [[("x ", ln_half); ("x y ", ln_quarter)]; [("y ", ln_half)]; []]
  /\ 0 < length ["a"; "b"; "c"]
  /\ recorded vocab_abc ["a"; "b"; "c"] 0 "x y " ln_quarter.
Proof.
  assert (E : @expand py vocab_abc ["a"; "b"; "c"]
              = Ok [[("x ", ln_half); ("x y ", ln_quarter)]; [("y ", ln_half)]; []])
    by (vm_compute; reflexivity).
  split; [exact E|].
  destruct (@coverings_keyed_by_start py vocab_abc ["a"; "b"; "c"] _ 0 "x y " ln_quarter E)
    as (B & R & _).
  - right. left. reflexivity.
  - split; assumption.
Defined.

(** C3, as stated, fails: a rendering that starts a covering is not
    capped (13 characters here), and an extension is kept with 11. *)
Lemma renderings_longer_than_10 :
  load_vocab py table_long = Ok vocab_long
  /\ @expand py vocab_long ["a"] = Ok [[("abcdefghijkl ", 0%float)]]
  /\ @run_generations py vocab_long [good "a" "-" "-"]
     = [("abcdefghijkl", ("a", 0, 1, 0%float))]
  /\ String.length "abcdefghijkl " = 13
  /\ load_vocab py table_fives = Ok vocab_fives
  /\ @expand py vocab_fives ["a"; "b"]
     = Ok [[("abcd ", 0%float); ("abcd fghij ", 0%float)]; [("fghij ", 0%float)]]
  /\ String.length "abcd fghij " = 11
  /\ index_by_vocab py (Some table_fives) [good "a b" "-" "-"]
     = Ok [index_line_of "abcd" "a b" "0" "1" "0.0";
           index_line_of "abcd fghij" "a b" "0" "2" "0.0";
           index_line_of "fghij" "a b" "1" "1" "0.0"].
Proof. repeat split; vm_compute; reflexivity. Qed.

Lemma abcd_fghij_has_11 :
  @expand py vocab_fives ["a"; "b"]
  = Ok [[("abcd ", 0%float); ("abcd fghij ", 0%float)]; [("fghij ", 0%float)]]
  /\ ((exists end_ rep,
         candidate vocab_fives ["a"; "b"] 0 end_ rep 0%float
         /\ "abcd fghij " = (rep ++ " ")%string)
      \/ (exists prev lp_prev begin end_ rep lp',
            recorded vocab_fives ["a"; "b"] 0 prev lp_prev
            /\ candidate vocab_fives ["a"; "b"] begin end_ rep lp'
            /\ "abcd fghij " = (prev ++ rep ++ " ")%string
            /\ String.length prev + String.length rep <= 10
            /\ String.length "abcd fghij " <= 11)).
Proof.
  assert (E : @expand py vocab_fives ["a"; "b"]
              = Ok [[("abcd ", 0%float); ("abcd fghij ", 0%float)]; [("fghij ", 0%float)]])
    by (vm_compute; reflexivity).
  split; [exact E|].
  apply (@rendering_length_bound py vocab_fives ["a"; "b"] _ 0 "abcd fghij " 0%float E).
  right. left. reflexivity.
Defined.

(** The first 100 generations of [z], and the posting of the 101st. *)
Lemma z_counts_and_bans :
  let gs := @run_generations py vocab_z (lines_z 100) in
  let p : posting py := (phrase_z 100, 0, 1, 0%float) in
  banned "z" (generated gs) = false
  /\ 100 < length (pushed (generated gs) "z" p)
  /\ Dict.get "z" (ngram_to_phrase_and_position (add_posting (generated gs) "z" p)) = None
  /\ banned "z" (add_posting (generated gs) "z" p) = true
  /\ Dict.get_default "z" 0 (index_freq (add_posting (generated gs) "z" p)) = 101.
Proof.
  intros gs p.
  assert (B : banned "z" (generated gs) = false) by (vm_compute; reflexivity).
  assert (L : 100 < length (pushed (generated gs) "z" p))
    by (apply Nat.ltb_lt; vm_compute; reflexivity).
  destruct (add_posting_counts_and_bans (F := py) gs "z" p) as (C & _ & _ & Ban & _).
  split; [exact B|]. split; [exact L|].
  split; [exact (proj1 (Ban B L))|]. split; [exact (proj2 (Ban B L))|].
  rewrite C. vm_compute. reflexivity.
Defined.

(** A replacement of probability 1/128 by itself: no covering, no posting;
    and -4.0 is not above -4.0. *)
Lemma rare_replacement_gives_nothing :
  @expand py vocab_rare ["a"] = Ok [[]]
  /\ log_table 0.0078125%float = Some (-0x1.3687a9f1af2b1p+2)%float
  /\ fgt py (-0x1.3687a9f1af2b1p+2)%float (minus_four py) = false
  /\ fgt py (minus_four py) (minus_four py) = false
  /\ (forall b, nth b ([[]] : list (covering py)) Dict.empty = Dict.empty)
  /\ (forall phrase, @generations_of py phrase [[]] = []).
Proof.
  assert (E : @expand py vocab_rare ["a"] = Ok [[]]) by (vm_compute; reflexivity).
  split; [exact E|]. do 3 (split; [vm_compute; reflexivity|]).
  destruct (@scores_above_threshold py vocab_rare ["a"] _ E) as (_ & _ & _ & Low).
  apply Low. intros src targets target p lp G I L.
  simpl in G. destruct (String.eqb src "a"); [|discriminate].
  inversion G; subst targets. destruct I as [I | []]. inversion I; subst.
  vm_compute in L. inversion L; subst. vm_compute. reflexivity.
Defined.

(** C7, as stated, fails: the mode [index_by_vocab] indexes a line whose
    source has two tokens and whose alignment has one. *)
Lemma index_by_vocab_ignores_mismatch :
  process_line line_mismatch = Some ("a b", "x", "x")
  /\ length (Str.split Str.space "a b") = 2
  /\ length (Str.split Str.space "x") = 1
  /\ main py "index_by_vocab" (Some table_a) [line_mismatch]
     = Ok [index_line_of "x" "a b" "0" "1" "0.0"].
Proof. repeat split; vm_compute; reflexivity. Qed.

Lemma mismatch_raises_in_vocab_modes :
  process_line line_mismatch = Some ("a b", "x", "x")
  /\ main py "get_replacement_vocab" None ([good "a" "x" "x"] ++ line_mismatch :: [])
     = Raise ValueError
  /\ main py "get_sub_misspells" None ([good "a" "x" "x"] ++ line_mismatch :: [])
     = Raise ValueError
  /\ (forall (vocab : vocab_t py) st,
        index_line vocab st (good "a b" "y" "y y") = index_line vocab st line_mismatch).
Proof.
  assert (P : process_line line_mismatch = Some ("a b", "x", "x")) by reflexivity.
  assert (N : length (Str.split Str.space "a b") <> length (Str.split Str.space "x"))
    by (vm_compute; discriminate).
  destruct (@length_mismatch_by_mode py line_mismatch "a b" "x" "x" P N)
    as (_ & _ & R1 & R2 & _ & Same).
  split; [exact P|]. split; [apply R1|]. split; [apply R2|].
  intros vocab st. apply Same with (dst' := "y") (align' := "y y"). reflexivity.
Defined.

Lemma abc_index_is_ordered :
  index_by_vocab py (Some table_abc) lines_abc
  = Ok [index_line_of "x" "a b c" "0" "1" "-0.6931471805599453";
        index_line_of "x y" "a b c" "0" "2" "-1.3862943611198906";
        index_line_of "y" "a b c" "1" "1" "-0.6931471805599453"]
  /\ StronglySorted (fun a b : string * nat => snd b <= snd a)
       (by_popularity (generated (@run_generations py vocab_abc lines_abc)))
  /\ NoDup (map fst (by_popularity (generated (@run_generations py vocab_abc lines_abc)))).
Proof.
  assert (H : index_by_vocab py (Some table_abc) lines_abc
              = Ok [index_line_of "x" "a b c" "0" "1" "-0.6931471805599453";
                    index_line_of "x y" "a b c" "0" "2" "-1.3862943611198906";
                    index_line_of "y" "a b c" "1" "1" "-0.6931471805599453"])
    by (vm_compute; reflexivity).
  split; [exact H|].
  destruct (@written_index_order py _ _ _ H)
    as (rows & vocab & E & L & _ & _ & ND & _ & Srt & _).
  inversion E; subst rows.
  change (load_vocab py table_abc) with (Ok vocab_abc) in L. inversion L; subst vocab.
  split; assumption.
Defined.


Lemma same_rendering_twice :
  @expand py vocab_twice ["a"; "b"] = Ok [[("x ", ln_quarter)]; []]
  /\ @expand py vocab_both ["a"; "b"]
     = Ok [[("x ", ln_half); ("x y ", ln_quarter)]; [("y ", ln_half)]]
  /\ (forall lp, In ("x ", lp) [("x ", ln_quarter)] -> ln_quarter = lp)
  /\ Dict.get "x " (nth 0 [[("x ", ln_quarter)]; []] (@Dict.empty float)) = Some ln_quarter
  /\ Dict.get "x y "
       (nth 0 (@grow py "y" ln_half 1 [[("x ", ln_half); ("x y ", 0%float)]; []] 0)
          Dict.empty)
     = Some ln_quarter.
Proof.
  assert (E : @expand py vocab_twice ["a"; "b"] = Ok [[("x ", ln_quarter)]; []])
    by (vm_compute; reflexivity).
  destruct (@one_score_per_rendering py vocab_twice ["a"; "b"])
    as (One & _ & Fresh & Ext).
  split; [exact E|]. split; [vm_compute; reflexivity|].
  split.
  { intros lp I. apply (One _ 0 "x " ln_quarter lp E); [now left | exact I]. }
  split.
  { apply (Fresh 0 2 [[("x ", ln_half)]; []] "x" 0.25%float ln_quarter);
      try (vm_compute; reflexivity).
    - vm_compute. discriminate.
    - simpl. lia. }
  apply (Ext "y" ln_half 1 [[("x ", ln_half); ("x y ", 0%float)]; []] 0 "x " ln_half);
    try (vm_compute; reflexivity).
  - intros [|[|[|b]]]; simpl; repeat constructor; simpl; intuition discriminate.
  - simpl. lia.
  - now left.
  - simpl. lia.
Defined.

End ScenarioClaims.

(* ================================================================== *)
(** * Further properties *)

(** ** More on lines: formatting and parsing *)

Section LineFacts.
Local Open Scope string_scope.

Lemma count_append c s t : Str.count c (s ++ t) = Str.count c s + Str.count c t.
Proof. induction s as [|d s IH]; simpl; auto. rewrite IH. lia. Qed.

Lemma split_free sep a : Str.count sep a = 0 -> Str.split sep a = [a].
Proof.
  induction a as [|c a IH]; simpl; auto.
  destruct (Ascii.eqb c sep); simpl; [discriminate|].
  intros H. now rewrite IH.
Qed.

Lemma split_append sep a rest :
  Str.count sep a = 0 ->
  Str.split sep (a ++ String sep rest) = a :: Str.split sep rest.
Proof.
  induction a as [|c a IH]; simpl.
  - now rewrite Ascii.eqb_refl.
  - destruct (Ascii.eqb c sep); simpl; [discriminate|].
    intros H. now rewrite IH.
Qed.

Lemma split_pieces_free sep s w : In w (Str.split sep s) -> Str.count sep w = 0.
Proof.
  revert w. induction s as [|c s IH]; simpl; intros w.
  - intros [<- | []]. reflexivity.
  - destruct (Ascii.eqb c sep) eqn:E; simpl.
    + intros [<- | I]; auto.
    + destruct (Str.split sep s) as [|w0 ws] eqn:S; simpl.
      * intros [<- | []]. simpl. now rewrite E.
      * intros [<- | I].
        -- simpl. rewrite E. apply IH. now left.
        -- apply IH. now right.
Qed.

Lemma join_split sep s : Str.join (String sep "") (Str.split sep s) = s.
Proof.
  induction s as [|c s IH]; simpl; auto.
  destruct (Ascii.eqb_spec c sep) as [-> | N].
  - destruct (Str.split sep s) as [|w ws] eqn:S.
    + simpl in IH. subst s. simpl in S. destruct (Str.split sep ""); discriminate.
    + change (Str.join (String sep "") ("" :: w :: ws))
        with (String sep (Str.join (String sep "") (w :: ws))).
      now rewrite IH.
  - destruct (Str.split sep s) as [|w ws] eqn:S.
    + simpl in IH. now subst s.
    + destruct ws as [|w' ws]; simpl in *; now rewrite IH.
Qed.

Lemma rstrip_blank w : blank w = true -> Str.rstrip w = "".
Proof.
  induction w as [|c w IH]; simpl; auto.
  intros H. apply andb_prop in H. destruct H as [Hc Hw].
  now rewrite (IH Hw), Hc.
Qed.

Lemma rstrip_append_blank s w : blank w = true -> Str.rstrip (s ++ w) = Str.rstrip s.
Proof.
  intros B. induction s as [|c s IH]; simpl.
  - now apply rstrip_blank.
  - now rewrite IH.
Qed.

Lemma rstrip_append s t : Str.rstrip t <> "" -> Str.rstrip (s ++ t) = s ++ Str.rstrip t.
Proof.
  intros N. induction s as [|c s IH]; simpl; auto.
  rewrite IH. destruct (s ++ Str.rstrip t) eqn:E; auto.
  exfalso. destruct s; simpl in E; [contradiction | discriminate].
Qed.

Lemma blank_append s t : blank (s ++ t) = blank s && blank t.
Proof. induction s as [|c s IH]; simpl; auto. now rewrite IH, andb_assoc. Qed.

Lemma blank_rstrip s : blank s = false -> Str.rstrip s <> "".
Proof.
  induction s as [|c s IH]; simpl; [discriminate|].
  destruct (Str.rstrip s) eqn:R; [|discriminate].
  destruct (Str.isspace c); simpl; [|discriminate]. auto.
Qed.

Lemma split_field a rest :
  Str.count Str.tab a = 0 ->
  Str.split Str.tab (a ++ TAB ++ rest) = (a :: Str.split Str.tab rest)%list.
Proof. apply split_append. Qed.

Import Scenarios.

Lemma good_facets src dst align :
  good src dst align = ("good:" ++ TAB ++ src ++ TAB ++ dst ++ TAB) ++ (align ++ NL).
Proof. unfold good. now rewrite !append_assoc. Qed.

(** X1: a line made of the mark [good:] and three facets without tabs, the
    last of them not blank, is read back as these facets; of the last one the
    whitespace at its end is lost. *)
Theorem process_line_of_good src dst align :
  Str.count Str.tab src = 0 ->
  Str.count Str.tab dst = 0 ->
  Str.count Str.tab align = 0 ->
  blank align = false ->
  process_line (good src dst align) = Some (src, dst, Str.rstrip align).
Proof.
  intros Hs Hd Ha Hb. unfold process_line, Str.strip.
  change (Str.lstrip (good src dst align)) with (good src dst align).
  assert (R : Str.rstrip (align ++ NL) = Str.rstrip align)
    by (apply rstrip_append_blank; reflexivity).
  assert (N : Str.rstrip (align ++ NL) <> "")
    by (rewrite R; now apply blank_rstrip).
  rewrite good_facets, rstrip_append by exact N. rewrite R, !append_assoc.
  rewrite split_field by reflexivity.
  rewrite !split_field by assumption.
  rewrite split_free; [reflexivity|].
  pose proof (count_rstrip Str.tab align). lia.
Qed.

Lemma process_line_split line src dst align :
  process_line line = Some (src, dst, align) ->
  Str.split Str.tab (Str.strip line) = ["good:"; src; dst; align]%list.
Proof.
  unfold process_line.
  destruct (Str.split Str.tab (Str.strip line)) as [|p0 [|p1 [|p2 [|p3 [|p4 ps]]]]] eqn:S;
    try discriminate.
  destruct (String.eqb_spec p0 "good:") as [-> | N]; [|discriminate].
  intros H. inversion H; subst. reflexivity.
Qed.

Lemma process_line_tab_free line src dst align :
  process_line line = Some (src, dst, align) ->
  Str.count Str.tab src = 0 /\ Str.count Str.tab align = 0.
Proof.
  intros P. apply process_line_split in P.
  split; apply (split_pieces_free Str.tab (Str.strip line)); rewrite P; simpl; auto.
Qed.

(** X2: what [process_line] returns are the three facets of the stripped
    line: the line is the mark [good:] and the facets, separated by tabs,
    and no facet has a tab. *)
Theorem process_line_facets line src dst align :
  process_line line = Some (src, dst, align) ->
  Str.strip line = "good:" ++ TAB ++ src ++ TAB ++ dst ++ TAB ++ align
  /\ Str.count Str.tab src = 0
  /\ Str.count Str.tab dst = 0
  /\ Str.count Str.tab align = 0.
Proof.
  intros P. apply process_line_split in P.
  split.
  - rewrite <- (join_split Str.tab (Str.strip line)), P. reflexivity.
  - repeat split; apply (split_pieces_free Str.tab (Str.strip line)); rewrite P;
      simpl; auto.
Qed.

(** X3: a line marked [good:] whose last facet is blank is skipped: the
    stripping of the line takes the last tab with it, and at most three
    fields are left. *)
Theorem process_line_blank_facet src dst align :
  Str.count Str.tab src = 0 ->
  Str.count Str.tab dst = 0 ->
  blank align = true ->
  process_line (good src dst align) = None.
Proof.
  intros Hs Hd Hb. unfold process_line, Str.strip.
  change (Str.lstrip (good src dst align)) with (good src dst align).
  assert (E : good src dst align = ("good:" ++ TAB ++ src ++ TAB ++ dst) ++ (TAB ++ align ++ NL))
    by (unfold good; now rewrite !append_assoc).
  assert (B : blank (TAB ++ align ++ NL) = true).
  { rewrite !blank_append, Hb. reflexivity. }
  rewrite E, rstrip_append_blank by exact B.
  assert (L := length_split Str.tab (Str.rstrip ("good:" ++ TAB ++ src ++ TAB ++ dst))).
  assert (C := count_rstrip Str.tab ("good:" ++ TAB ++ src ++ TAB ++ dst)).
  rewrite !count_append in C. rewrite Hs, Hd in C. simpl in C.
  destruct (Str.split Str.tab (Str.rstrip ("good:" ++ TAB ++ src ++ TAB ++ dst)))
    as [|p0 [|p1 [|p2 [|p3 [|p4 ps]]]]]; auto.
  simpl in L. lia.
Qed.

End LineFacts.

(** ** The vocabularies of replacements *)

Lemma get_default_incr k k0 d :
  Dict.get_default k 0 (incr k0 d)
  = if String.eqb k0 k then Dict.get_default k0 0 d + 1 else Dict.get_default k 0 d.
Proof.
  unfold incr, Dict.get_default. destruct (String.eqb_spec k0 k) as [-> | N].
  - now rewrite DictFacts.get_set_same.
  - now rewrite DictFacts.get_set_other.
Qed.

Lemma get_default_incr_le k k0 d :
  Dict.get_default k 0 d <= Dict.get_default k 0 (incr k0 d).
Proof.
  rewrite get_default_incr. destruct (String.eqb_spec k0 k) as [-> | N]; lia.
Qed.

Lemma total_set k v d :
  total (Dict.set k v d) + Dict.get_default k 0 d = total d + v.
Proof.
  unfold total, Dict.get_default. induction d as [|[k' v'] d IH]; simpl.
  - lia.
  - destruct (String.eqb_spec k k') as [-> | N]; simpl; lia.
Qed.

Lemma total_incr k d : total (incr k d) = total d + 1.
Proof. unfold incr. pose proof (total_set k (Dict.get_default k 0 d + 1) d). lia. Qed.

Section UpdateFacts.
Variables (inputs replacements : list string) (v : vocabs) (clean : bool).

Lemma update_keys_once :
  keys_once v -> keys_once (update_vocabs_with_aligned_fragment inputs replacements v clean).
Proof.
  intros [Nf Nt]. unfold update_vocabs_with_aligned_fragment.
  set (inp := if clean then _ else Str.join " " inputs).
  set (rep := if clean then _ else Str.join " " replacements).
  split; simpl.
  - now apply DictFacts.NoDup_set.
  - intros inp' targets G.
    destruct (String.eqb_spec inp inp') as [<- | N].
    + rewrite DictFacts.get_set_same in G. inversion G; subst. clear G.
      apply DictFacts.NoDup_set.
      assert (NoDup (Dict.keys (Dict.get_default inp Dict.empty (full_vocab v)))).
      { unfold Dict.get_default.
        destruct (Dict.get inp (full_vocab v)) eqn:E; [eapply Nt; eauto | constructor]. }
      destruct (negb _); auto. now apply DictFacts.NoDup_set.
    + rewrite DictFacts.get_set_other in G by assumption. eapply Nt; eauto.
Qed.

Lemma update_counts_agree :
  counts_agree v ->
  counts_agree (update_vocabs_with_aligned_fragment inputs replacements v clean).
Proof.
  intros A. unfold update_vocabs_with_aligned_fragment.
  set (inp := if clean then _ else Str.join " " inputs).
  set (rep := if clean then _ else Str.join " " replacements).
  intros inp' targets rep' n. simpl.
  set (inner := Dict.get_default inp Dict.empty (full_vocab v)).
  set (inner1 := if negb (Dict.mem rep inner) then Dict.set rep 0 inner else inner).
  assert (Old : forall r m, Dict.get r inner = Some m ->
                            1 <= m /\ m <= Dict.get_default inp 0 (src_vocab v)
                            /\ m <= Dict.get_default r 0 (dst_vocab v)).
  { intros r m G. unfold inner, Dict.get_default in G.
    destruct (Dict.get inp (full_vocab v)) eqn:E; [|discriminate].
    eapply A; eauto. }
  assert (G1 : forall r, r <> rep -> Dict.get r inner1 = Dict.get r inner).
  { intros r N. unfold inner1. destruct (negb _); auto.
    apply DictFacts.get_set_other. congruence. }
  assert (D1 : Dict.get_default rep 0 inner1 = Dict.get_default rep 0 inner).
  { unfold inner1, Dict.mem, Dict.get_default.
    destruct (Dict.get rep inner) eqn:E; simpl; [now rewrite E|].
    now rewrite DictFacts.get_set_same. }
  rewrite !get_default_incr.
  destruct (String.eqb_spec inp inp') as [<- | Ni].
  - rewrite DictFacts.get_set_same. intros H. inversion H; subst. clear H.
    destruct (String.eqb_spec rep rep') as [<- | Nr].
    + rewrite DictFacts.get_set_same. intros H. inversion H; subst. clear H.
      rewrite D1.
      assert (Gb : Dict.get_default rep 0 inner <= Dict.get_default inp 0 (src_vocab v)
                   /\ Dict.get_default rep 0 inner <= Dict.get_default rep 0 (dst_vocab v)).
      { unfold Dict.get_default at 1 3.
        destruct (Dict.get rep inner) eqn:E; [|lia].
        destruct (Old _ _ E) as (? & ? & ?). lia. }
      lia.
    + rewrite DictFacts.get_set_other, G1 by congruence.
      intros G. destruct (Old _ _ G) as (? & ? & ?). lia.
  - rewrite DictFacts.get_set_other by assumption. intros Gi Gr.
    destruct (A _ _ _ _ Gi Gr) as (? & ? & ?).
    destruct (String.eqb_spec rep rep') as [<- | Nr]; lia.
Qed.

Lemma update_totals :
  total (src_vocab (update_vocabs_with_aligned_fragment inputs replacements v clean))
  = total (src_vocab v) + 1
  /\ total (dst_vocab (update_vocabs_with_aligned_fragment inputs replacements v clean))
     = total (dst_vocab v) + 1.
Proof. unfold update_vocabs_with_aligned_fragment. simpl. now rewrite !total_incr. Qed.

End UpdateFacts.


Lemma update_ok inputs replacements v clean :
  vocabs_ok v -> vocabs_ok (update_vocabs_with_aligned_fragment inputs replacements v clean).
Proof. intros [K A]. split; [now apply update_keys_once | now apply update_counts_agree]. Qed.

Lemma no_vocabs_ok : vocabs_ok no_vocabs.
Proof.
  split; [split|]; simpl.
  - constructor.
  - discriminate.
  - intros inp targets rep n G. discriminate G.
Qed.

Lemma get_replacement_vocab_line_ok v line v' :
  vocabs_ok v -> get_replacement_vocab_line v line = Ok v' -> vocabs_ok v'.
Proof.
  intros W. unfold get_replacement_vocab_line.
  destruct (process_line line) as [[[src dst] align]|]; [|now intros H; inversion H; subst].
  destruct (negb _); [discriminate|].
  intros H. inversion H; subst. clear H.
  apply fold_left_invariant; auto.
  intros s begin _ Ws. apply fold_left_invariant; auto.
  intros s' end_ _ Ws'. now apply update_ok.
Qed.

Lemma get_sub_misspells_line_ok v line v' :
  vocabs_ok v -> get_sub_misspells_line v line = Ok v' -> vocabs_ok v'.
Proof.
  intros W. unfold get_sub_misspells_line.
  destruct (process_line line) as [[[src dst] align]|]; [|now intros H; inversion H; subst].
  destruct (negb _); [discriminate|].
  match goal with
  | |- context [fold_left ?f ?l ?s] =>
      assert (I : vocabs_ok (snd (fold_left f l s)))
  end.
  { apply (fold_left_invariant (fun bv : nat * vocabs => vocabs_ok (snd bv))); auto.
    intros [b s] i _ Ws. simpl in *.
    destruct (_ && _); simpl; auto. now apply update_ok. }
  destruct (fold_left _ _ _) as [begin v1]. simpl in I.
  intros H. inversion H; subst. clear H.
  apply update_ok. destruct (0 <? begin); auto. now apply update_ok.
Qed.

Lemma vocabs_ok_In v inp targets rep n :
  vocabs_ok v ->
  In (inp, targets) (full_vocab v) -> In (rep, n) targets ->
  1 <= n /\ n <= Dict.get_default inp 0 (src_vocab v)
  /\ n <= Dict.get_default rep 0 (dst_vocab v).
Proof.
  intros [[Nf Nt] A] Ii Ir.
  apply DictFacts.In_get in Ii; auto.
  apply DictFacts.In_get in Ir; [|eapply Nt; eauto].
  eapply A; eauto.
Qed.

Section RowFacts.
Local Open Scope string_scope.

(** X4: every row that [get_replacement_vocab] writes has a joint count of
    at least 1 that exceeds neither the count of its source nor the count of
    its replacement. *)
Theorem get_replacement_vocab_rows lines out row :
  get_replacement_vocab lines = Ok out ->
  In row out ->
  exists inp rep n s d,
    row = inp ++ TAB ++ rep ++ TAB ++ Str.of_nat n ++ TAB ++ Str.of_nat s
              ++ TAB ++ Str.of_nat d ++ NL
    /\ 1 <= n /\ n <= s /\ n <= d.
Proof.
  unfold get_replacement_vocab.
  destruct (for_each get_replacement_vocab_line lines no_vocabs) as [v|] eqn:R;
    simpl; [|discriminate].
  intros H I. inversion H; subst. clear H.
  assert (W : vocabs_ok v).
  { eapply for_each_invariant with (P := vocabs_ok); [| |exact R].
    - intros s x s' _. apply get_replacement_vocab_line_ok.
    - apply no_vocabs_ok. }
  apply in_flat_map in I. destruct I as ([inp targets] & Ii & I).
  apply in_map_iff in I. destruct I as ([rep n] & <- & Ir). simpl.
  exists inp, rep, n, (Dict.get_default inp 0 (src_vocab v)),
    (Dict.get_default rep 0 (dst_vocab v)).
  split; [reflexivity|]. eapply vocabs_ok_In; eauto.
Qed.

End RowFacts.

Section MisspellRows.
Variable F : FloatOps.
Local Open Scope string_scope.

(** X5: every row that [get_sub_misspells] writes has a replacement that is
    not empty and a ratio of joint count to source count that is not at or
    below 1/200; its joint count is at least 1 and exceeds neither the count
    of its source nor the count of its replacement. *)
Theorem get_sub_misspells_rows lines out row :
  get_sub_misspells F lines = Ok out ->
  In row out ->
  exists inp rep n s d,
    row = inp ++ TAB ++ rep ++ TAB ++ Str.of_nat n ++ TAB ++ Str.of_nat s
              ++ TAB ++ Str.of_nat d ++ NL
    /\ rep <> ""
    /\ fle F (truediv F (Z.of_nat n) (Z.of_nat s)) (truediv F 1 200) = false
    /\ 1 <= n /\ n <= s /\ n <= d.
Proof.
  unfold get_sub_misspells.
  destruct (for_each get_sub_misspells_line lines no_vocabs) as [v|] eqn:R;
    simpl; [|discriminate].
  intros H I. inversion H; subst. clear H.
  assert (W : vocabs_ok v).
  { eapply for_each_invariant with (P := vocabs_ok); [| |exact R].
    - intros s x s' _. apply get_sub_misspells_line_ok.
    - apply no_vocabs_ok. }
  apply in_flat_map in I. destruct I as ([inp targets] & Ii & I).
  apply in_flat_map in I. destruct I as ([rep n] & Ir & I). simpl in I.
  destruct (fle F _ _) eqn:Rare; [contradiction|].
  destruct (String.eqb_spec rep "") as [-> | NE]; [contradiction|].
  destruct I as [<- | []].
  exists inp, rep, n, (Dict.get_default inp 0 (src_vocab v)),
    (Dict.get_default rep 0 (dst_vocab v)).
  split; [reflexivity|]. split; [assumption|]. split; [assumption|].
  eapply vocabs_ok_In; eauto.
Qed.

End MisspellRows.

(** ** Fragments per line *)

Lemma fold_update_totals (A : Type) (f g : A -> list string) clean (l : list A) v :
  let v' := fold_left (fun v x => update_vocabs_with_aligned_fragment (f x) (g x) v clean) l v in
  total (src_vocab v') = total (src_vocab v) + length l
  /\ total (dst_vocab v') = total (dst_vocab v) + length l.
Proof.
  revert v. induction l as [|x l IH]; simpl; intros v; [lia|].
  destruct (IH (update_vocabs_with_aligned_fragment (f x) (g x) v clean)) as [-> ->].
  destruct (update_totals (f x) (g x) v clean) as [-> ->]. lia.
Qed.

Lemma length_range a b : length (range a b) = b - a.
Proof. unfold range. apply length_seq. Qed.

(** X6: a line of [get_replacement_vocab] whose facets have [n] tokens each
    counts 4 * n fragments: four windows begin at every token, and a window
    that runs past the end of the phrase is cut there and counted again. *)
Theorem get_replacement_vocab_line_counts v line src dst align :
  process_line line = Some (src, dst, align) ->
  length (Str.split Str.space src) = length (Str.split Str.space align) ->
  exists v',
    get_replacement_vocab_line v line = Ok v'
    /\ total (src_vocab v') = total (src_vocab v) + 4 * length (Str.split Str.space src)
    /\ total (dst_vocab v') = total (dst_vocab v) + 4 * length (Str.split Str.space src).
Proof.
  intros P L. unfold get_replacement_vocab_line. rewrite P, L, Nat.eqb_refl. simpl negb.
  eexists. split; [reflexivity|].
  rewrite <- L. generalize (Str.split Str.space src) (Str.split Str.space align).
  intros inputs replacements.
  assert (G : forall l v0,
             let v' :=
               fold_left
                 (fun v begin =>
                    fold_left
                      (fun v end_ =>
                         update_vocabs_with_aligned_fragment
                           (slice inputs begin end_) (slice replacements begin end_) v false)
                      (range (begin + 1) (begin + 5)) v) l v0 in
             total (src_vocab v') = total (src_vocab v0) + 4 * length l
             /\ total (dst_vocab v') = total (dst_vocab v0) + 4 * length l).
  { induction l as [|begin l IH]; simpl; intros v0; [lia|].
    match goal with
    | |- context [fold_left ?f l ?s] => destruct (IH s) as [-> ->]
    end.
    destruct (fold_update_totals (fun e => slice inputs begin e)
                (fun e => slice replacements begin e) false
                (range (begin + 1) (begin + 5)) v0) as [-> ->].
    rewrite length_range. lia. }
  destruct (G (range 0 (length inputs)) v) as [-> ->].
  rewrite length_range. lia.
Qed.

(** ** Numbers written and read *)

Lemma int_digits_uint d acc b :
  d <> Nil \/ b = true ->
  Str.int_digits (Z.of_nat acc) b (NilEmpty.string_of_uint d)
  = Some (Z.of_nat (Nat.of_uint_acc d acc)).
Proof.
  revert acc b.
  induction d as [|d IH|d IH|d IH|d IH|d IH|d IH|d IH|d IH|d IH|d IH]; intros acc b H;
    [destruct H as [H | ->]; [contradiction | reflexivity]|..];
    cbn [NilEmpty.string_of_uint Str.int_digits Nat.of_uint_acc];
    match goal with
    | |- context [Ascii.eqb ?c "_"%char] =>
        change (Ascii.eqb c "_"%char) with false; cbv iota
    end;
    match goal with
    | |- context [Str.digit_of ?c] =>
        let k := eval vm_compute in (Str.digit_of c) in
        change (Str.digit_of c) with k; cbv iota
    end;
    match goal with
    | |- Str.int_digits ?z true _ = Some (Z.of_nat (Nat.of_uint_acc d ?m)) =>
        replace z with (Z.of_nat m) by (rewrite Nat.tail_mul_spec; lia)
    end;
    apply IH; now right.
Qed.

Lemma to_uint_not_Nil n : Nat.to_uint n <> Nil.
Proof.
  intros E. assert (Z : n = 0) by (rewrite <- (Unsigned.of_to n), E; reflexivity).
  subst n. discriminate E.
Qed.

Lemma digits_chars (P : ascii -> Prop) d :
  (forall c, In c (list_ascii_of_string "0123456789") -> P c) ->
  forall c, In c (list_ascii_of_string (NilEmpty.string_of_uint d)) -> P c.
Proof.
  intros H. induction d; simpl; intros c I; try contradiction;
    destruct I as [<- | I]; auto; apply H; simpl; tauto.
Qed.

Section WrittenRows.
Local Open Scope string_scope.

Lemma length_lstrip s : String.length (Str.lstrip s) <= String.length s.
Proof. induction s as [|c s IH]; simpl; auto. destruct (Str.isspace c); simpl; lia. Qed.

Lemma lstrip_append s t : s <> "" -> Str.lstrip s = s -> Str.lstrip (s ++ t) = s ++ t.
Proof.
  destruct s as [|c s]; [contradiction|]. intros _. simpl.
  destruct (Str.isspace c); auto.
  intros E. exfalso. apply (f_equal String.length) in E.
  pose proof (length_lstrip s). simpl in E. lia.
Qed.

Lemma rstrip_chars s :
  (forall c, In c (list_ascii_of_string s) -> Str.isspace c = false) -> Str.rstrip s = s.
Proof.
  induction s as [|c s IH]; simpl; auto. intros H.
  rewrite IH by auto. rewrite (H c) by auto. now destruct s.
Qed.

Lemma count_chars sep s :
  (forall c, In c (list_ascii_of_string s) -> Ascii.eqb c sep = false) -> Str.count sep s = 0.
Proof.
  induction s as [|c s IH]; simpl; auto. intros H.
  rewrite IH by auto. now rewrite (H c) by auto.
Qed.

Lemma of_nat_rstrip n : Str.rstrip (Str.of_nat n) = Str.of_nat n.
Proof.
  apply rstrip_chars. unfold Str.of_nat.
  apply (digits_chars (fun c => Str.isspace c = false)). intros c I. simpl in I.
  repeat (destruct I as [<- | I]; [reflexivity|]). contradiction.
Qed.

Lemma of_nat_tabs n : Str.count Str.tab (Str.of_nat n) = 0.
Proof.
  apply count_chars. unfold Str.of_nat.
  apply (digits_chars (fun c => Ascii.eqb c Str.tab = false)). intros c I. simpl in I.
  repeat (destruct I as [<- | I]; [reflexivity|]). contradiction.
Qed.

Lemma of_nat_not_empty n : Str.of_nat n <> "".
Proof.
  unfold Str.of_nat. pose proof (to_uint_not_Nil n).
  destruct (Nat.to_uint n); try contradiction; discriminate.
Qed.

(** The decimal form of a count is read back by [int] as the count. *)
Lemma to_int_of_nat n : Str.to_int (Str.of_nat n) = Some (Z.of_nat n).
Proof.
  unfold Str.to_int, Str.strip.
  assert (L : Str.lstrip (Str.of_nat n) = Str.of_nat n).
  { unfold Str.of_nat. destruct (Nat.to_uint n); reflexivity. }
  rewrite L, of_nat_rstrip.
  assert (E : Str.int_digits 0 false (Str.of_nat n) = Some (Z.of_nat n)).
  { unfold Str.of_nat. change 0%Z with (Z.of_nat 0).
    rewrite int_digits_uint by (left; apply to_uint_not_Nil).
    change (Nat.of_uint_acc (Nat.to_uint n) 0) with (Nat.of_uint (Nat.to_uint n)).
    now rewrite Unsigned.of_to. }
  revert E. unfold Str.of_nat. pose proof (to_uint_not_Nil n).
  destruct (Nat.to_uint n); try contradiction; auto.
Qed.

Section Loads.
Variable F : FloatOps.

(** A row that the vocabulary modes write is a row that [index_by_vocab]
    loads, when its source and its replacement are not empty, have no tab,
    and the source does not begin with whitespace, and the count of the
    source is not 0: the probability stored is the quotient of the two
    counts. *)
Lemma load_row_vocab_line v (vocab : vocab_t F) inp rep n :
  inp <> "" -> Str.lstrip inp = inp -> Str.count Str.tab inp = 0 ->
  rep <> "" -> Str.count Str.tab rep = 0 ->
  Dict.get_default inp 0 (src_vocab v) <> 0 ->
  load_row vocab (vocab_line v inp rep n)
  = Ok (Dict.set inp
          (Dict.set rep
             (truediv F (Z.of_nat n) (Z.of_nat (Dict.get_default inp 0 (src_vocab v))))
             (Dict.get_default inp Dict.empty vocab))
          vocab).
Proof.
  intros Ni Li Ti Nr Tr Ns. unfold load_row, vocab_line, Str.strip.
  set (s := Dict.get_default inp 0 (src_vocab v)) in *.
  set (d := Dict.get_default rep 0 (dst_vocab v)).
  rewrite lstrip_append by assumption.
  assert (R : Str.rstrip (Str.of_nat d ++ NL) = Str.of_nat d).
  { rewrite rstrip_append_blank by reflexivity. apply of_nat_rstrip. }
  assert (E : inp ++ TAB ++ rep ++ TAB ++ Str.of_nat n ++ TAB ++ Str.of_nat s ++ TAB
                  ++ Str.of_nat d ++ NL
              = (inp ++ TAB ++ rep ++ TAB ++ Str.of_nat n ++ TAB ++ Str.of_nat s ++ TAB)
                  ++ (Str.of_nat d ++ NL))
    by now rewrite !append_assoc.
  rewrite E, rstrip_append by (rewrite R; apply of_nat_not_empty).
  rewrite R, !append_assoc.
  rewrite !split_field by (auto using of_nat_tabs).
  rewrite split_free by apply of_nat_tabs.
  destruct (String.eqb_spec inp ""); [contradiction|].
  destruct (String.eqb_spec rep ""); [contradiction|]. simpl negb. cbv iota.
  rewrite !to_int_of_nat.
  destruct (Z.eqb_spec (Z.of_nat s) 0); [lia | reflexivity].
Qed.

End Loads.
End WrittenRows.

(** ** More on the table and the expander *)

Lemma for_each_same (A S : Type) (body : S -> A -> result S) xs s :
  (forall x, In x xs -> body s x = Ok s) -> for_each body xs s = Ok s.
Proof.
  induction xs as [|x xs IH]; simpl; intros H; auto.
  rewrite H by auto. simpl. apply IH. auto.
Qed.

Lemma for_each_raised (A S : Type) (body : S -> A -> result S) xs s e :
  for_each body xs s = Raise e -> exists s' x, In x xs /\ body s' x = Raise e.
Proof.
  revert s. induction xs as [|x xs IH]; simpl; intros s H; [discriminate|].
  destruct (body s x) as [s1|e1] eqn:B; simpl in H.
  - destruct (IH _ H) as (s' & y & I & R). exists s', y. auto.
  - inversion H; subst. exists s, x. auto.
Qed.

Lemma for_each_returns (A S : Type) (P : S -> Prop) (body : S -> A -> result S) xs :
  (forall s x, In x xs -> P s -> exists s', body s x = Ok s' /\ P s') ->
  forall s, P s -> exists s', for_each body xs s = Ok s' /\ P s'.
Proof.
  induction xs as [|x xs IH]; simpl; intros Step s Ps; [eauto|].
  destruct (Step s x (or_introl eq_refl) Ps) as (s1 & -> & P1). simpl.
  apply IH; auto.
Qed.

Section TableAndExpander.
Variable F : FloatOps.
Implicit Types (vocab : vocab_t F) (index_keys : list (covering F)).

(** X8: loading a row sets the probability of its source and target and
    leaves every other probability of the table as it was; a source that the
    table has keeps its place, a new one goes to the end. *)
Theorem load_row_sets_one vocab line vocab' :
  load_row vocab line = Ok vocab' ->
  exists src dst joint_freq src_freq dst_freq j s,
    Str.split Str.tab (Str.strip line) = [src; dst; joint_freq; src_freq; dst_freq]
    /\ Str.to_int joint_freq = Some j /\ Str.to_int src_freq = Some s
    /\ probability vocab' src dst = Some (truediv F j s)
    /\ (forall src' dst',
          src' <> src \/ dst' <> dst ->
          probability vocab' src' dst' = probability vocab src' dst')
    /\ Dict.keys vocab'
       = if Dict.mem src vocab then Dict.keys vocab else Dict.keys vocab ++ [src].
Proof.
  unfold load_row.
  destruct (Str.split Str.tab (Str.strip line))
    as [|src [|dst [|jf [|sf [|df [|f6 fs]]]]]]; try discriminate.
  destruct (negb _); [discriminate|].
  destruct (Str.to_int jf) as [j|] eqn:J; [|discriminate].
  destruct (Str.to_int sf) as [s|] eqn:S; [|discriminate].
  destruct (s =? 0)%Z; [discriminate|].
  intros H. inversion H; subst. clear H.
  exists src, dst, jf, sf, df, j, s.
  split; [reflexivity|]. split; [exact J|]. split; [exact S|].
  split; [|split].
  - unfold probability. now rewrite !DictFacts.get_set_same.
  - intros src' dst' N. unfold probability.
    destruct (String.eqb_spec src src') as [<- | Ns].
    + rewrite DictFacts.get_set_same.
      destruct N as [N | N]; [contradiction|].
      rewrite DictFacts.get_set_other by congruence.
      unfold Dict.get_default. now destruct (Dict.get src vocab).
    + now rewrite DictFacts.get_set_other.
  - apply DictFacts.keys_set.
Qed.

Lemma length_add_replacement begin end_ index_keys entry index_keys' :
  add_replacement begin end_ index_keys entry = Ok index_keys' ->
  length index_keys' = length index_keys.
Proof.
  destruct entry as [rep p]. unfold add_replacement.
  destruct (math_log F p); [|discriminate].
  destruct (String.eqb _ ""); intros H; inversion H; subst; auto.
  destruct (fgt F _ _); rewrite ?length_set_nth; apply length_grown.
Qed.

(** X9: when every probability of the table has a logarithm, the expander
    returns for every phrase, with one dictionary of coverings per token. *)
Theorem expand_returns vocab inputs :
  (forall src targets target p,
      Dict.get src vocab = Some targets -> In (target, p) targets ->
      math_log F p <> None) ->
  exists index_keys,
    expand vocab inputs = Ok index_keys /\ length index_keys = length inputs.
Proof.
  intros Logs. unfold expand.
  apply (for_each_returns (fun ik : list (covering F) => length ik = length inputs));
    [|apply length_map].
  intros s begin _ Ps. unfold expand_from.
  apply (for_each_returns (fun ik : list (covering F) => length ik = length inputs)); auto.
  intros s1 end_ _ P1. unfold expand_window.
  destruct (Dict.get (Str.join " " (slice inputs begin end_)) vocab) as [targets|] eqn:G;
    [|eauto].
  apply (for_each_returns (fun ik : list (covering F) => length ik = length inputs)); auto.
  intros s2 [target p] I P2.
  destruct (add_replacement begin end_ s2 (target, p)) as [s3|e] eqn:A.
  - exists s3. split; auto. rewrite (length_add_replacement _ _ _ _ A). exact P2.
  - exfalso. unfold add_replacement in A.
    destruct (math_log F p) eqn:L.
    + destruct (String.eqb _ ""); discriminate.
    + eapply Logs; eauto.
Qed.

(** X10: the expander raises nothing but ValueError, and only for a
    probability of the table, under a window of the phrase, that has no
    logarithm. *)
Theorem expand_raises vocab inputs e :
  expand vocab inputs = Raise e ->
  e = ValueError
  /\ exists begin end_ targets target p,
      begin < end_ /\ end_ <= begin + 4 /\ end_ <= length inputs
      /\ Dict.get (Str.join " " (slice inputs begin end_)) vocab = Some targets
      /\ In (target, p) targets
      /\ math_log F p = None.
Proof.
  unfold expand. intros H.
  apply for_each_raised in H. destruct H as (s & begin & Ib & H).
  unfold expand_from in H.
  apply for_each_raised in H. destruct H as (s1 & end_ & Ie & H).
  apply in_range in Ie. unfold expand_window in H.
  destruct (Dict.get (Str.join " " (slice inputs begin end_)) vocab) as [targets|] eqn:G;
    [|discriminate].
  apply for_each_raised in H. destruct H as (s2 & [target p] & I & H).
  unfold add_replacement in H.
  destruct (math_log F p) eqn:L.
  - destruct (String.eqb _ ""); discriminate.
  - inversion H; subst. split; [reflexivity|].
    exists begin, end_, targets, target, p. repeat split; auto; lia.
Qed.

Lemma nth_no_coverings inputs b :
  nth b (map (fun _ : string => @Dict.empty (float_t F)) inputs) Dict.empty = Dict.empty.
Proof. revert b. induction inputs as [|x xs IH]; intros [|b]; simpl; auto. Qed.

(** X11: a line whose phrase has no window in the table leaves the index as
    it is: no counter, no posting, no ban. *)
Theorem index_line_without_windows vocab st line phrase dst align :
  process_line line = Some (phrase, dst, align) ->
  (forall begin end_,
      begin < end_ -> end_ <= begin + 4 ->
      end_ <= length (Str.split Str.space phrase) ->
      Dict.get (Str.join " " (slice (Str.split Str.space phrase) begin end_)) vocab = None) ->
  index_line vocab st line = Ok st.
Proof.
  intros P N. unfold index_line. rewrite P.
  set (inputs := Str.split Str.space phrase) in *.
  assert (E : expand vocab inputs = Ok (map (fun _ => Dict.empty) inputs)).
  { unfold expand. apply for_each_same. intros begin Ib.
    unfold expand_from. apply for_each_same. intros end_ Ie.
    apply in_range in Ie. unfold expand_window. rewrite N by lia. reflexivity. }
  rewrite E. simpl. f_equal. unfold index_phrase.
  apply fold_left_invariant with (P := fun s => s = st); auto.
  intros s b _ ->. unfold index_position. now rewrite nth_no_coverings.
Qed.

(** X12: in every state of the index an ngram holds at most 100 postings and
    never an empty list; it is banned exactly when it has been generated
    more than 100 times, and a banned ngram holds nothing. *)
Theorem postings_capped (gs : list (generation F)) ngram :
  let st := generated gs in
  length (Dict.get_default ngram [] (ngram_to_phrase_and_position st)) <= 100
  /\ Dict.get ngram (ngram_to_phrase_and_position st) <> Some []
  /\ (banned ngram st = true <-> 100 < length (of_ngram ngram gs))
  /\ (banned ngram st = true -> Dict.get ngram (ngram_to_phrase_and_position st) = None)
  /\ length (rows_of st ngram) <= 100.
Proof.
  cbv zeta. destruct (generated_holds gs ngram) as (_ & Hp & Hb).
  unfold rows_of. rewrite length_map. unfold Dict.get_default. rewrite Hp, Hb.
  destruct (Nat.eqb_spec (length (of_ngram ngram gs)) 0) as [Z | NZ];
    destruct (Nat.ltb_spec 100 (length (of_ngram ngram gs))) as [Big | Small];
    simpl; repeat split; try discriminate; try lia; auto.
  intros E. inversion E as [E']. rewrite E' in NZ. now apply NZ.
Qed.

End TableAndExpander.

(** ** Batches of the inference *)

Section InferenceFacts.
Variable infer : list string -> list string.
Variable batch_size : Z.


Lemma infer_loop l :
  forall i batch done,
    Forall (sendable batch_size) done ->
    ((0 < batch_size)%Z -> (Z.of_nat (length batch) < batch_size)%Z) ->
    exists done' batch',
      fold_left (infer_step infer batch_size (i + length l)) (combine (seq i (length l)) l)
        (batch, flat_map infer done)
      = (batch', flat_map infer done')
      /\ concat done' ++ batch' = concat done ++ batch ++ map Str.strip l
      /\ Forall (sendable batch_size) done'
      /\ (l <> [] -> batch' = [])
      /\ (l = [] -> batch' = batch)
      /\ ((batch_size <= 0)%Z -> done' = done ++ match l with [] => [] | _ => [batch ++ map Str.strip l] end).
Proof.
  induction l as [|x l IH]; intros i batch done Fd Bb.
  - exists done, batch. simpl. split; [reflexivity|].
    split; [now rewrite app_nil_r|]. split; [assumption|].
    split; [intros N; now contradiction N|]. split; [reflexivity|].
    intros _. now rewrite app_nil_r.
  - cbn [length seq combine fold_left infer_step].
    replace (i + S (length l)) with (S i + length l) by lia.
    set (batch1 := batch ++ [Str.strip x]).
    destruct ((Z.of_nat (length batch1) =? batch_size)%Z
              || (Z.of_nat i =? Z.of_nat (S i + length l) - 1)%Z) eqn:Flush.
    + assert (S1 : sendable batch_size batch1).
      { split; [unfold batch1; now destruct batch|].
        intros Pos. specialize (Bb Pos). unfold batch1. rewrite length_app. simpl. lia. }
      assert (E : flat_map infer done ++ infer batch1 = flat_map infer (done ++ [batch1]))
        by (rewrite flat_map_app; simpl; now rewrite app_nil_r).
      rewrite E.
      destruct (IH (S i) [] (done ++ [batch1])) as (done' & batch' & -> & C & Fd' & Last & Same & Neg).
      { apply Forall_app. split; auto. }
      { simpl. lia. }
      exists done', batch'. split; [reflexivity|]. split.
      { rewrite C, concat_app. simpl. unfold batch1. now rewrite !app_nil_r, <- !app_assoc. }
      split; [assumption|]. split.
      { intros _. destruct l; [apply Same; reflexivity | apply Last; discriminate]. }
      split; [discriminate|].
      intros NegB. rewrite (Neg NegB).
      apply orb_prop in Flush. destruct Flush as [Fl | Fl].
      * apply Z.eqb_eq in Fl. unfold batch1 in Fl. rewrite length_app in Fl. simpl in Fl. lia.
      * apply Z.eqb_eq in Fl. destruct l; [|cbn [length] in Fl; lia].
        simpl. rewrite app_nil_r. reflexivity.
    + apply orb_false_elim in Flush. destruct Flush as [F1 F2].
      apply Z.eqb_neq in F1. apply Z.eqb_neq in F2.
      destruct (IH (S i) batch1 done Fd) as (done' & batch' & -> & C & Fd' & Last & Same & Neg).
      { intros Pos. specialize (Bb Pos). unfold batch1 in *. rewrite length_app in *.
        simpl in *. lia. }
      exists done', batch'. split; [reflexivity|]. split.
      { rewrite C. unfold batch1. now rewrite <- !app_assoc. }
      split; [assumption|]. split.
      { intros _. apply Last. destruct l; [cbn [length] in F2; lia | discriminate]. }
      split; [discriminate|].
      intros NegB. rewrite (Neg NegB).
      destruct l; [cbn [length] in F2; lia|]. unfold batch1. now rewrite <- !app_assoc.
Qed.

(** X13: the predictions are those of the batches sent to the model, in
    order; the batches, one after the other, are the stripped lines of the
    file, so every line is sent once; no batch is empty, and with a positive
    batch size none is longer than it. *)
Theorem batches_cover_the_lines lines :
  exists batches,
    all_predictions infer batch_size lines = flat_map infer batches
    /\ concat batches = map Str.strip lines
    /\ Forall (fun b => b <> [] /\ ((0 < batch_size)%Z ->
                                     (Z.of_nat (length b) <= batch_size)%Z)) batches.
Proof.
  destruct (@infer_loop lines 0 [] [] (Forall_nil _)) as (done & batch & E & C & Fd & Last & Same & _).
  { simpl. lia. }
  simpl in E, C. unfold all_predictions, enumerate. rewrite E. simpl.
  exists done. split; [reflexivity|]. split; [|exact Fd].
  destruct lines as [|x l].
  - rewrite (Same eq_refl) in C. now rewrite app_nil_r in C.
  - rewrite Last in C by discriminate. now rewrite app_nil_r in C.
Qed.

(** X14: with a model that returns one prediction for every line of a
    batch, the ValueError of differing numbers is not raised, whatever the
    batch size: the predictions are written, joined by newlines, one for
    every line of the file. *)
Theorem infer_file_returns lines :
  (forall batch, length (infer batch) = length batch) ->
  infer_file infer batch_size lines
  = Ok (Str.join NL (all_predictions infer batch_size lines))
  /\ length (all_predictions infer batch_size lines) = length lines.
Proof.
  intros Len.
  destruct (@infer_loop lines 0 [] [] (Forall_nil _))
    as (batches & batch & E & C & _ & Last & Same & _).
  { simpl. lia. }
  simpl in E, C.
  assert (C' : concat batches = map Str.strip lines).
  { destruct lines as [|x l].
    - rewrite (Same eq_refl) in C. now rewrite app_nil_r in C.
    - rewrite Last in C by discriminate. now rewrite app_nil_r in C. }
  clear C Last Same.
  assert (L : length (all_predictions infer batch_size lines) = length lines).
  { unfold all_predictions, enumerate. rewrite E. simpl.
    rewrite <- (length_map Str.strip lines), <- C'. clear E C'.
    induction batches as [|b bs IH]; simpl in *; auto.
    now rewrite !length_app, IH, Len. }
  split; [|exact L].
  unfold infer_file. now rewrite L, Nat.eqb_refl.
Qed.

(** X15: a batch size that is not positive is never reached: the whole file
    is sent as one batch, at its last line. *)
Theorem nonpositive_batch_size lines :
  (batch_size <= 0)%Z ->
  all_predictions infer batch_size lines
  = match lines with [] => [] | _ => infer (map Str.strip lines) end.
Proof.
  intros Neg.
  destruct (@infer_loop lines 0 [] [] (Forall_nil _)) as (done & batch & E & _ & _ & _ & _ & D).
  { simpl. lia. }
  simpl in E. unfold all_predictions, enumerate. rewrite E. simpl.
  rewrite (D Neg). destruct lines; simpl; [reflexivity | now rewrite app_nil_r].
Qed.

End InferenceFacts.

(** ** Upsampling *)

Lemma get_default_touch k k0 d : Dict.get_default k 0 (touch k0 d) = Dict.get_default k 0 d.
Proof.
  unfold touch, Dict.mem, Dict.get_default.
  destruct (Dict.get k0 d) eqn:E; auto.
  destruct (String.eqb_spec k0 k) as [<- | N].
  - now rewrite DictFacts.get_set_same, E.
  - now rewrite DictFacts.get_set_other.
Qed.

Lemma take_this_sent_spec min_number sent_parts cls2count :
  fst (take_this_sent min_number sent_parts cls2count)
  = existsb (fun sent_part =>
               (Z.of_nat (Dict.get_default (cls_of sent_part) 0%nat cls2count) <? min_number)%Z)
      sent_parts
  /\ forall k, Dict.get_default k 0 (snd (take_this_sent min_number sent_parts cls2count))
              = Dict.get_default k 0 cls2count.
Proof.
  revert cls2count. induction sent_parts as [|p ps IH]; simpl; intros d; [auto|].
  rewrite get_default_touch.
  destruct (Z.of_nat (Dict.get_default (cls_of p) 0%nat d) <? min_number)%Z; simpl.
  - split; [reflexivity|]. intros k. apply get_default_touch.
  - destruct (IH (touch (cls_of p) d)) as [E G]. split.
    + rewrite E. clear. induction ps as [|q qs IHq]; simpl; auto.
      now rewrite get_default_touch, IHq.
    + intros k. now rewrite G, get_default_touch.
Qed.

Lemma counted_parts k sent_parts d :
  Dict.get_default k 0 (fold_left (fun d sent_part => incr (cls_of sent_part) d) sent_parts d)
  = Dict.get_default k 0 d
    + length (filter (fun sent_part => String.eqb (cls_of sent_part) k) sent_parts).
Proof.
  revert d. induction sent_parts as [|p ps IH]; simpl; intros d; [lia|].
  rewrite IH, get_default_incr.
  destruct (String.eqb_spec (cls_of p) k) as [<- | N]; simpl; lia.
Qed.

Section StringFacts.
Local Open Scope string_scope.

Lemma join_empty_snoc l x : Str.join "" (l ++ [x])%list = Str.join "" l ++ x.
Proof.
  induction l as [|y l IH]; [reflexivity|].
  destruct l as [|z l]; [reflexivity|].
  change (Str.join "" ((y :: z :: l) ++ [x])%list)
    with (y ++ Str.join "" ((z :: l) ++ [x])%list).
  rewrite IH. change (Str.join "" (y :: z :: l)) with (y ++ Str.join "" (z :: l)).
  now rewrite append_assoc.
Qed.

Lemma sample_sent_decides min_number cls2count out sent :
  exists cls2count',
    sample_sent min_number (cls2count, out) sent
    = (cls2count', if wanted min_number cls2count sent then out ++ sent ++ EOS else out)
    /\ forall cls,
        Dict.get_default cls 0 cls2count'
        = Dict.get_default cls 0 cls2count
          + (if wanted min_number cls2count sent then occurrences cls [sent] else 0).
Proof.
  unfold sample_sent, wanted, occurrences, parts_of. simpl flat_map.
  rewrite app_nil_r.
  destruct (take_this_sent_spec min_number (Str.split Str.newline sent) cls2count) as [E G].
  destruct (take_this_sent min_number (Str.split Str.newline sent) cls2count) as [take d].
  simpl in E, G. rewrite <- E. destruct take; eexists; (split; [reflexivity|]).
  - intros cls. now rewrite counted_parts, G.
  - intros cls. rewrite G. lia.
Qed.

(** X16: what a sentence does to the counts and to the output: it is
    written, followed by the line that ends a sentence, exactly when one of
    its parts has a class counted fewer than [min_number] times, and then
    every part adds one to the count of its class; otherwise no count
    changes. *)
Theorem sample_sent_spec min_number cls2count out sent :
  let st := sample_sent min_number (cls2count, out) sent in
  snd st = (if wanted min_number cls2count sent then out ++ sent ++ EOS else out)
  /\ forall cls,
      Dict.get_default cls 0 (fst st)
      = Dict.get_default cls 0 cls2count
        + (if wanted min_number cls2count sent then occurrences cls [sent] else 0).
Proof.
  cbv zeta.
  destruct (sample_sent_decides min_number cls2count out sent) as (d & E & C).
  rewrite E. split; [reflexivity | exact C].
Qed.

End StringFacts.

Section SampleFacts.
Local Open Scope string_scope.

Lemma join_empty_cons x l : Str.join "" (x :: l) = x ++ Str.join "" l.
Proof. destruct l; simpl; [now rewrite append_empty_r | reflexivity]. Qed.

Lemma join_empty_app l1 l2 : Str.join "" (l1 ++ l2)%list = Str.join "" l1 ++ Str.join "" l2.
Proof.
  induction l1 as [|x l1 IH]; [reflexivity|].
  change ((x :: l1) ++ l2)%list with (x :: (l1 ++ l2))%list.
  now rewrite !join_empty_cons, IH, append_assoc.
Qed.

Lemma occurrences_cons cls sent sents :
  occurrences cls (sent :: sents) = occurrences cls [sent] + occurrences cls sents.
Proof.
  unfold occurrences, parts_of. simpl. rewrite app_nil_r, filter_app, length_app. reflexivity.
Qed.

Lemma occurrences_le cls sents : occurrences cls sents <= length (parts_of sents).
Proof. unfold occurrences. apply filter_length_le. Qed.

Lemma sample_sents min_number sents :
  forall cls2count out,
  exists taken,
    subseq taken sents
    /\ snd (fold_left (sample_sent min_number) sents (cls2count, out))
       = out ++ Str.join "" (map (fun sent => sent ++ EOS) taken)
    /\ forall cls,
        Dict.get_default cls 0 (fst (fold_left (sample_sent min_number) sents (cls2count, out)))
        = Dict.get_default cls 0 cls2count + occurrences cls taken.
Proof.
  induction sents as [|sent sents IH]; intros d out.
  - exists []. simpl. split; [constructor|]. split; [now rewrite append_empty_r|].
    intros cls. unfold occurrences. simpl. lia.
  - change (fold_left (sample_sent min_number) (sent :: sents) (d, out))
      with (fold_left (sample_sent min_number) sents (sample_sent min_number (d, out) sent)).
    destruct (sample_sent_decides min_number d out sent) as (d1 & E & C). rewrite E.
    destruct (wanted min_number d sent).
    + destruct (IH d1 (out ++ sent ++ EOS)) as (taken & S & O' & C').
      exists (sent :: taken). split; [now constructor|]. split.
      * rewrite O'. cbn [map]. now rewrite join_empty_cons, !append_assoc.
      * intros cls. rewrite C', C, (occurrences_cons cls sent taken). lia.
    + destruct (IH d1 out) as (taken & S & O' & C').
      exists taken. split; [now constructor|]. split.
      * exact O'.
      * intros cls. rewrite C', C. lia.
Qed.

Lemma make_sample_sentences min_number input_files :
  make_sample min_number input_files
  = fold_left (sample_sent min_number) (sentences input_files) (Dict.empty, "").
Proof. unfold make_sample, sentences, sample_file. now rewrite fold_left_flat_map. Qed.

(** X17: the output is made of some of the sentences of the input, in their
    order, each followed by the line that ends a sentence; the count of a
    class at the end is the number of parts of the written sentences that
    begin with it. *)
Theorem make_sample_counts min_number input_files :
  exists taken,
    subseq taken (sentences input_files)
    /\ snd (make_sample min_number input_files)
       = Str.join "" (map (fun sent => sent ++ EOS) taken)
    /\ forall cls,
        Dict.get_default cls 0 (fst (make_sample min_number input_files))
        = occurrences cls taken.
Proof.
  rewrite make_sample_sentences.
  destruct (sample_sents min_number (sentences input_files) Dict.empty "")
    as (taken & S & O & C).
  exists taken. split; [assumption|]. split; [exact O|].
  intros cls. now rewrite C.
Qed.

Lemma unwanted min_number d sent : (min_number <= 0)%Z -> wanted min_number d sent = false.
Proof.
  intros N. unfold wanted. induction (Str.split Str.newline sent) as [|p ps IH]; simpl; auto.
  rewrite IH, orb_false_r. apply Z.ltb_ge. lia.
Qed.

(** X18: with a [min_number] that is not positive nothing is written and
    nothing is counted. *)
Theorem make_sample_nothing min_number input_files :
  (min_number <= 0)%Z ->
  snd (make_sample min_number input_files) = ""
  /\ forall cls, Dict.get_default cls 0 (fst (make_sample min_number input_files)) = 0.
Proof.
  intros N. rewrite make_sample_sentences.
  assert (G : forall sents d out,
             snd (fold_left (sample_sent min_number) sents (d, out)) = out
             /\ forall cls,
                 Dict.get_default cls 0 (fst (fold_left (sample_sent min_number) sents (d, out)))
                 = Dict.get_default cls 0 d).
  { induction sents as [|sent sents IH]; intros d out; [now split|].
    change (fold_left (sample_sent min_number) (sent :: sents) (d, out))
      with (fold_left (sample_sent min_number) sents (sample_sent min_number (d, out) sent)).
    destruct (sample_sent_decides min_number d out sent) as (d1 & E & C).
    rewrite (unwanted d sent N) in E, C. rewrite E.
    destruct (IH d1 out) as [O' C']. split; [exact O'|].
    intros cls. rewrite C', C. lia. }
  destruct (G (sentences input_files) Dict.empty "") as [O C]. split; [exact O|].
  intros cls. now rewrite C.
Qed.

End SampleFacts.

Section SplitBy.
Local Open Scope string_scope.

Lemma prefix_append sep s : String.prefix sep s = true -> exists rest, s = sep ++ rest.
Proof.
  revert s. induction sep as [|c sep IH]; intros s.
  - now exists s.
  - destruct s as [|d s]; simpl; [discriminate|].
    destruct (ascii_dec c d) as [<- | N]; [|discriminate].
    intros H. destruct (IH _ H) as (rest & ->). now exists rest.
Qed.

Lemma split_by_skip sep t cur rest :
  split_by_from sep (String.length t) cur (t ++ rest) = split_by_from sep 0 cur rest.
Proof. induction t as [|c t IH]; [reflexivity|]. simpl. exact IH. Qed.

Lemma split_by_some sep k cur s : split_by_from sep k cur s <> []%list.
Proof.
  revert k cur. induction s as [|c s IH]; cbn [split_by_from]; intros k cur; [discriminate|].
  destruct k; [|apply IH].
  destruct (String.prefix sep (String c s)); [discriminate | apply IH].
Qed.

Lemma join_cons sep x l : l <> []%list -> Str.join sep (x :: l) = x ++ sep ++ Str.join sep l.
Proof. destruct l; [contradiction | reflexivity]. Qed.

Lemma join_split_by_from sep n :
  sep <> "" ->
  forall s cur, String.length s <= n ->
                Str.join sep (split_by_from sep 0 cur s) = cur ++ s.
Proof.
  intros NE. induction n as [|n IH]; intros s cur L.
  - destruct s; [|simpl in L; lia]. simpl. now rewrite append_empty_r.
  - destruct s as [|c s]; [simpl; now rewrite append_empty_r|].
    cbn [split_by_from].
    destruct (String.prefix sep (String c s)) eqn:P.
    + destruct (prefix_append _ _ P) as (rest & E).
      destruct sep as [|d sep]; [contradiction|].
      simpl in E. inversion E; subst. clear E.
      match goal with
      | |- context [String.length (String ?a ?b) - 1] =>
          replace (String.length (String a b) - 1) with (String.length b)
            by (cbn [String.length]; lia)
      end.
      match goal with
      | |- context [split_by_from ?sp (String.length ?t) ?cu (?t ++ ?re)] =>
          rewrite (split_by_skip sp t cu re)
      end.
      rewrite join_cons by apply split_by_some.
      rewrite IH.
      * reflexivity.
      * simpl in L. rewrite length_append in L. lia.
    + rewrite IH by (simpl in L; lia).
      now rewrite append_assoc.
Qed.

(** The parts of a split, joined by the separator, are the string. *)
Lemma join_split_by sep s : sep <> "" -> Str.join sep (split_by sep s) = s.
Proof. intros NE. unfold split_by. now rewrite (join_split_by_from NE s "" (le_n _)). Qed.

Lemma join_terminated sep l :
  l <> []%list -> Str.join "" (map (fun x => x ++ sep) l) = Str.join sep l ++ sep.
Proof.
  induction l as [|x l IH]; [contradiction|]. intros _.
  destruct l as [|y l]; [reflexivity|].
  cbn [map]. rewrite join_empty_cons. cbn [map] in IH. rewrite IH by discriminate.
  rewrite (join_cons sep x (l := y :: l)) by discriminate.
  now rewrite !append_assoc.
Qed.

Lemma sentences_joined input_files :
  Str.join "" (map (fun sent => sent ++ EOS) (sentences input_files))
  = Str.join "" (map (fun contents => contents ++ EOS) input_files).
Proof.
  unfold sentences. induction input_files as [|f fs IH]; [reflexivity|].
  cbn [flat_map map]. rewrite map_app, join_empty_app, join_empty_cons, IH.
  f_equal. rewrite join_terminated by apply split_by_some.
  now rewrite join_split_by by discriminate.
Qed.

Lemma all_wanted min_number sents :
  forall d out,
    (forall cls, (Z.of_nat (Dict.get_default cls 0%nat d + length (parts_of sents))%nat <= min_number)%Z) ->
    snd (fold_left (sample_sent min_number) sents (d, out))
    = out ++ Str.join "" (map (fun sent => sent ++ EOS) sents)
    /\ forall cls,
        Dict.get_default cls 0 (fst (fold_left (sample_sent min_number) sents (d, out)))
        = Dict.get_default cls 0 d + occurrences cls sents.
Proof.
  induction sents as [|sent sents IH]; intros d out B.
  - simpl. split; [now rewrite append_empty_r|]. intros cls. unfold occurrences. simpl. lia.
  - change (fold_left (sample_sent min_number) (sent :: sents) (d, out))
      with (fold_left (sample_sent min_number) sents (sample_sent min_number (d, out) sent)).
    destruct (sample_sent_decides min_number d out sent) as (d1 & E & C).
    assert (W : wanted min_number d sent = true).
    { unfold wanted. pose proof (length_split Str.newline sent) as LS.
      destruct (Str.split Str.newline sent) as [|p ps] eqn:S; [discriminate|].
      simpl. apply orb_true_iff. left. apply Z.ltb_lt.
      specialize (B (cls_of p)). unfold parts_of in B. simpl in B.
      rewrite S, length_app in B. simpl in B. lia. }
    rewrite W in E, C. rewrite E.
    destruct (IH d1 (out ++ sent ++ EOS)) as [O' C'].
    { intros cls. rewrite C. specialize (B cls).
      pose proof (occurrences_le cls [sent]) as Le.
      unfold parts_of in *. simpl in *. rewrite app_nil_r in Le.
      rewrite length_app in B. lia. }
    split.
    + rewrite O'. cbn [map]. now rewrite join_empty_cons, !append_assoc.
    + intros cls. rewrite C', C, (occurrences_cons cls sent sents). lia.
Qed.

(** X19: when [min_number] is at least the number of parts of all the
    sentences, every sentence is written: the output is every file followed
    by one more line that ends a sentence, and every part is counted. *)
Theorem make_sample_everything min_number input_files :
  (Z.of_nat (length (parts_of (sentences input_files))) <= min_number)%Z ->
  snd (make_sample min_number input_files)
  = Str.join "" (map (fun contents => contents ++ EOS) input_files)
  /\ forall cls,
      Dict.get_default cls 0 (fst (make_sample min_number input_files))
      = occurrences cls (sentences input_files).
Proof.
  intros B. rewrite make_sample_sentences.
  destruct (@all_wanted min_number (sentences input_files) Dict.empty "") as [O C].
  { intros cls. exact B. }
  split.
  - rewrite O. apply sentences_joined.
  - intros cls. now rewrite C.
Qed.

End SplitBy.

(** ** The ngrams of the index *)

Section NgramFacts.
Local Open Scope string_scope.

Lemma all_chars_append p s t : all_chars p (s ++ t) = all_chars p s && all_chars p t.
Proof. induction s as [|c s IH]; simpl; auto. now rewrite IH, andb_assoc. Qed.

Lemma replace_char a s :
  forall p : ascii -> bool,
    p " "%char = true ->
    (forall c, Ascii.eqb c a = false -> p c = true) ->
    all_chars p (Str.replace (String a "") " " s) = true.
Proof.
  intros p Ps Pc. unfold Str.replace. induction s as [|c s IH]; [reflexivity|].
  cbn [Str.replace_from String.prefix String.length Nat.sub].
  destruct (ascii_dec a c) as [<- | N].
  - destruct s; simpl in *; now rewrite Ps, ?IH.
  - simpl. rewrite IH, Pc; auto. apply Ascii.eqb_neq. congruence.
Qed.

Lemma replace_char_keeps a s (p : ascii -> bool) :
  p " "%char = true -> all_chars p s = true ->
  all_chars p (Str.replace (String a "") " " s) = true.
Proof.
  intros Ps. unfold Str.replace. induction s as [|c s IH]; [reflexivity|].
  cbn [Str.replace_from String.prefix String.length Nat.sub]. simpl all_chars at 1.
  intros H. apply andb_prop in H. destruct H as [Hc Hs].
  destruct (ascii_dec a c) as [<- | N].
  - destruct s; simpl in *; now rewrite Ps, ?IH.
  - simpl. now rewrite Hc, IH.
Qed.

Lemma split_ws_words cur s :
  all_chars letter cur = true ->
  all_chars (fun c => Str.isspace c || letter c) s = true ->
  Forall (fun w => w <> "" /\ all_chars letter w = true) (Str.split_ws_from cur s).
Proof.
  revert cur. induction s as [|c s IH]; simpl; intros cur Hc Hs.
  - destruct (String.eqb_spec cur ""); repeat constructor; auto.
  - apply andb_prop in Hs. destruct Hs as [H1 H2].
    destruct (Str.isspace c) eqn:Sp.
    + destruct (String.eqb_spec cur "").
      * now apply IH.
      * constructor; [now split | now apply IH].
    + apply IH; auto. rewrite all_chars_append, Hc. simpl in *. now rewrite H1.
Qed.

(** X20: the ngram under which a rendering is indexed is made of words
    joined by single spaces; a word is not empty and has no whitespace and
    no fill mark [+] or [=]. *)
Theorem normalize_words ngram :
  exists words,
    normalize ngram = Str.join " " words
    /\ Forall (fun w => w <> "" /\ all_chars letter w = true) words.
Proof.
  exists (Str.split_ws (Str.replace "=" " " (Str.replace "+" " " ngram))).
  split; [reflexivity|].
  apply split_ws_words; [reflexivity|].
  assert (P : all_chars (fun c => Str.isspace c || negb (Ascii.eqb c "+"))
                (Str.replace "+" " " ngram) = true).
  { apply replace_char; [reflexivity|]. intros c ->. now rewrite orb_true_r. }
  assert (Q : all_chars (fun c => Str.isspace c || negb (Ascii.eqb c "="))
                (Str.replace "=" " " (Str.replace "+" " " ngram)) = true).
  { apply replace_char; [reflexivity|]. intros c ->. now rewrite orb_true_r. }
  assert (P' : all_chars (fun c => Str.isspace c || negb (Ascii.eqb c "+"))
                 (Str.replace "=" " " (Str.replace "+" " " ngram)) = true)
    by (apply replace_char_keeps; [reflexivity | exact P]).
  revert P' Q. generalize (Str.replace "=" " " (Str.replace "+" " " ngram)).
  induction s as [|c s IH]; simpl; auto.
  intros H1 H2. apply andb_prop in H1. apply andb_prop in H2.
  destruct H1 as [A1 B1], H2 as [A2 B2]. rewrite IH by assumption.
  unfold letter. destruct (Str.isspace c); simpl in *; [reflexivity|].
  now rewrite A1, A2.
Qed.

End NgramFacts.

(** ** From the vocabulary file to the table *)

Section Pipeline.
Local Open Scope string_scope.

Lemma count_join_le c sep l w :
  In w l -> Str.count c w <= Str.count c (Str.join sep l).
Proof.
  induction l as [|x l IH]; [contradiction|].
  intros I. destruct l as [|y l].
  - destruct I as [<- | []]. simpl. lia.
  - change (Str.join sep (x :: y :: l)) with (x ++ sep ++ Str.join sep (y :: l)).
    rewrite !count_append. destruct I as [<- | I]; [lia|].
    specialize (IH I). lia.
Qed.

Lemma count_join c sep l :
  Str.count c sep = 0 -> Forall (fun w => Str.count c w = 0) l ->
  Str.count c (Str.join sep l) = 0.
Proof.
  intros Hs. induction 1 as [|x l Hx Hl IH]; [reflexivity|].
  destruct l as [|y l]; [exact Hx|].
  change (Str.join sep (x :: y :: l)) with (x ++ sep ++ Str.join sep (y :: l)).
  rewrite !count_append. lia.
Qed.

Lemma count_split_piece c sep s w :
  Str.count c s = 0 -> In w (Str.split sep s) -> Str.count c w = 0.
Proof.
  intros Hs I. pose proof (count_join_le c (String sep "") _ _ I) as L.
  rewrite join_split in L. lia.
Qed.

Lemma In_slice (A : Type) (l : list A) a b x : In x (slice l a b) -> In x l.
Proof.
  unfold slice. intros I.
  assert (J : In x (skipn a l)).
  { revert I. generalize (skipn a l) (b - a). intros l0 n. revert l0.
    induction n as [|n IH]; intros [|y l0]; simpl; try contradiction.
    intros [-> | I]; auto. }
  clear I. revert l J. induction a as [|a IH]; intros [|y l]; simpl; auto.
Qed.

Lemma update_tab_free inputs replacements v :
  Forall (fun w => Str.count Str.tab w = 0) inputs ->
  Forall (fun w => Str.count Str.tab w = 0) replacements ->
  tab_free v ->
  tab_free (update_vocabs_with_aligned_fragment inputs replacements v false).
Proof.
  intros Hi Hr T inp' targets rep' n. unfold update_vocabs_with_aligned_fragment. simpl.
  set (inp := Str.join " " inputs). set (rep := Str.join " " replacements).
  assert (Ci : Str.count Str.tab inp = 0) by now apply count_join.
  assert (Cr : Str.count Str.tab rep = 0) by now apply count_join.
  set (inner := Dict.get_default inp Dict.empty (full_vocab v)).
  set (inner1 := if negb (Dict.mem rep inner) then Dict.set rep 0 inner else inner).
  destruct (String.eqb_spec inp inp') as [<- | Ni].
  - rewrite DictFacts.get_set_same. intros H. inversion H; subst. clear H.
    destruct (String.eqb_spec rep rep') as [<- | Nr]; [auto|].
    rewrite DictFacts.get_set_other by assumption.
    assert (G1 : Dict.get rep' inner1 = Dict.get rep' inner).
    { unfold inner1. destruct (negb _); auto. now apply DictFacts.get_set_other. }
    rewrite G1. unfold inner, Dict.get_default.
    destruct (Dict.get inp (full_vocab v)) eqn:E; [|discriminate].
    intros G. split; [assumption|]. eapply T; eauto.
  - rewrite DictFacts.get_set_other by assumption. apply T.
Qed.

Lemma get_replacement_vocab_line_tab_free v line v' :
  tab_free v -> get_replacement_vocab_line v line = Ok v' -> tab_free v'.
Proof.
  intros T. unfold get_replacement_vocab_line.
  destruct (process_line line) as [[[src dst] align]|] eqn:P;
    [|now intros H; inversion H; subst].
  destruct (process_line_tab_free line P) as [Ts Ta].
  destruct (negb _); [discriminate|].
  intros H. inversion H; subst. clear H.
  apply fold_left_invariant; auto.
  intros s begin _ Ws. apply fold_left_invariant; auto.
  intros s' end_ _ Ws'. apply update_tab_free; auto.
  - apply Forall_forall. intros w I. apply In_slice in I.
    eapply count_split_piece; [exact Ts | exact I].
  - apply Forall_forall. intros w I. apply In_slice in I.
    eapply count_split_piece; [exact Ta | exact I].
Qed.

Variable F : FloatOps.

(** X7: the file that [get_replacement_vocab] writes is a table for
    [index_by_vocab].  Every row is a source, a replacement and the counts
    n, s and d, separated by tabs; the source and the replacement have no
    tab, and 1 <= n <= s; when the source and the replacement are not empty
    and the source does not begin with whitespace, loading the row sets the
    probability of the pair to n / s. *)
Theorem written_rows_load lines out row :
  get_replacement_vocab lines = Ok out ->
  In row out ->
  exists inp rep n s d,
    row = inp ++ TAB ++ rep ++ TAB ++ Str.of_nat n ++ TAB ++ Str.of_nat s
              ++ TAB ++ Str.of_nat d ++ NL
    /\ 1 <= n /\ n <= s
    /\ Str.count Str.tab inp = 0 /\ Str.count Str.tab rep = 0
    /\ (inp <> "" -> Str.lstrip inp = inp -> rep <> "" ->
        forall vocab : vocab_t F,
          load_row vocab row
          = Ok (Dict.set inp
                  (Dict.set rep (truediv F (Z.of_nat n) (Z.of_nat s))
                     (Dict.get_default inp Dict.empty vocab))
                  vocab)).
Proof.
  unfold get_replacement_vocab.
  destruct (for_each get_replacement_vocab_line lines no_vocabs) as [v|] eqn:R;
    simpl; [|discriminate].
  intros H I. inversion H; subst. clear H.
  assert (W : vocabs_ok v).
  { eapply for_each_invariant with (P := vocabs_ok); [| |exact R].
    - intros s x s' _. apply get_replacement_vocab_line_ok.
    - apply no_vocabs_ok. }
  assert (T : tab_free v).
  { eapply for_each_invariant with (P := tab_free); [| |exact R].
    - intros s x s' _. apply get_replacement_vocab_line_tab_free.
    - intros inp targets rep n G. discriminate G. }
  apply in_flat_map in I. destruct I as ([inp targets] & Ii & I).
  apply in_map_iff in I. destruct I as ([rep n] & <- & Ir). simpl.
  simpl in Ir. destruct (@vocabs_ok_In v inp targets rep n W Ii Ir) as (N1 & N2 & _).
  destruct W as [[Nf Nt] _].
  apply DictFacts.In_get in Ii; auto.
  apply DictFacts.In_get in Ir; [|eapply Nt; eauto].
  destruct (T _ _ _ _ Ii Ir) as [Ci Cr].
  exists inp, rep, n, (Dict.get_default inp 0 (src_vocab v)),
    (Dict.get_default rep 0 (dst_vocab v)).
  split; [reflexivity|].
  repeat split; auto.
  intros Ni Li Nr vocab. apply load_row_vocab_line; auto. lia.
Qed.

End Pipeline.

(** ** The postings of a run *)

Section PostingFacts.
Variable F : FloatOps.
Local Open Scope string_scope.

(** X21: every posting that a run of the indexer generates comes from a
    line of the alignment file that has the three facets; it names the
    phrase of that line, a position of one of its tokens, a span of at least
    one and a log-probability above -4.0, and its ngram is the normal form
    of a rendering kept under that position. *)
Theorem postings_of_a_run (vocab : vocab_t F) lines ngram phrase b span lp :
  In (ngram, (phrase, b, span, lp)) (run_generations vocab lines) ->
  exists line dst align index_keys rendering,
    In line lines
    /\ process_line line = Some (phrase, dst, align)
    /\ expand vocab (Str.split Str.space phrase) = Ok index_keys
    /\ In (rendering, lp) (nth b index_keys Dict.empty)
    /\ ngram = normalize rendering
    /\ span = Str.count Str.space rendering
    /\ b < length (Str.split Str.space phrase)
    /\ 1 <= span
    /\ fgt F lp (minus_four F) = true.
Proof.
  unfold run_generations. intros I. apply in_flat_map in I.
  destruct I as (line & Il & I). unfold line_generations in I.
  destruct (process_line line) as [[[phrase' dst] align]|] eqn:P; [|contradiction].
  destruct (expand vocab (Str.split Str.space phrase')) as [index_keys|] eqn:E;
    [|contradiction].
  unfold generations_of in I. apply in_flat_map in I. destruct I as (b' & Ib & I).
  apply in_map_iff in I. destruct I as ([rendering lp'] & Eq & I).
  simpl in Eq. inversion Eq; subst. clear Eq.
  unfold by_score in I. apply sorted_desc_In in I.
  assert (R := @expand_recorded F vocab _ index_keys E _ _ _ I).
  destruct (recorded_starts_at R) as (end_ & rep & lp0 & rest & C & ->).
  exists line, dst, align, index_keys, (rep ++ " " ++ rest).
  repeat split; auto.
  - destruct C as (B1 & _ & B3 & _). lia.
  - rewrite !count_append. simpl. lia.
  - eapply recorded_above; eauto.
Qed.

End PostingFacts.

(** ** The scenarios of the further properties *)

Section CaseFacts.
Import Binary64.
Import Scenarios.
Import Cases.
Local Open Scope string_scope.

Lemma good_line_is_read :
  process_line (good "a b" "c d" "x y ") = Some ("a b", "c d", "x y").
Proof.
  exact (@process_line_of_good "a b" "c d" "x y " eq_refl eq_refl eq_refl eq_refl).
Defined.

Lemma facets_of_a_good_line :
  Str.strip (good "a b" "c d" "x y")
  = "good:" ++ TAB ++ "a b" ++ TAB ++ "c d" ++ TAB ++ "x y"
  /\ Str.count Str.tab "a b" = 0
  /\ Str.count Str.tab "c d" = 0
  /\ Str.count Str.tab "x y" = 0.
Proof.
  exact (@process_line_facets (good "a b" "c d" "x y") "a b" "c d" "x y" eq_refl).
Defined.

Lemma blank_alignment_is_skipped : process_line (good "a b" "c d" "  ") = None.
Proof. exact (@process_line_blank_facet "a b" "c d" "  " eq_refl eq_refl eq_refl). Defined.

Lemma pair_counted_three_times :
  get_replacement_vocab [good "a b" "x" "x y"]
  = Ok [row "a" "x" "1" "1" "1"; row "a b" "x y" "3" "3" "3"; row "b" "y" "4" "4" "4"]
  /\ exists inp rep n s d,
      row "a b" "x y" "3" "3" "3"
      = inp ++ TAB ++ rep ++ TAB ++ Str.of_nat n ++ TAB ++ Str.of_nat s
            ++ TAB ++ Str.of_nat d ++ NL
      /\ 1 <= n /\ n <= s /\ n <= d.
Proof.
  assert (E : get_replacement_vocab [good "a b" "x" "x y"]
              = Ok [row "a" "x" "1" "1" "1"; row "a b" "x y" "3" "3" "3";
                    row "b" "y" "4" "4" "4"]) by (vm_compute; reflexivity).
  split; [exact E|].
  apply (@get_replacement_vocab_rows _ _ (row "a b" "x y" "3" "3" "3") E).
  right. left. reflexivity.
Defined.

Lemma misspell_of_hello :
  get_sub_misspells py [good "h e l l o _ w" "x" "h a l l o _ w"]
  = Ok [row "hello" "hallo" "1" "1" "1"; row "w" "w" "1" "1" "1";
        row "hello w" "hallo w" "1" "1" "1"]
  /\ exists inp rep n s d,
      row "hello" "hallo" "1" "1" "1"
      = inp ++ TAB ++ rep ++ TAB ++ Str.of_nat n ++ TAB ++ Str.of_nat s
            ++ TAB ++ Str.of_nat d ++ NL
      /\ rep <> ""
      /\ fle py (truediv py (Z.of_nat n) (Z.of_nat s)) (truediv py 1 200) = false
      /\ 1 <= n /\ n <= s /\ n <= d.
Proof.
  assert (E : get_sub_misspells py [good "h e l l o _ w" "x" "h a l l o _ w"]
              = Ok [row "hello" "hallo" "1" "1" "1"; row "w" "w" "1" "1" "1";
                    row "hello w" "hallo w" "1" "1" "1"]) by (vm_compute; reflexivity).
  split; [exact E|].
  apply (@get_sub_misspells_rows py _ _ (row "hello" "hallo" "1" "1" "1") E).
  left. reflexivity.
Defined.

Lemma two_tokens_count_eight :
  exists v',
    get_replacement_vocab_line no_vocabs (good "a b" "c" "x y") = Ok v'
    /\ total (src_vocab v') = total (src_vocab no_vocabs) + 4 * 2
    /\ total (dst_vocab v') = total (dst_vocab no_vocabs) + 4 * 2.
Proof.
  exact (@get_replacement_vocab_line_counts no_vocabs (good "a b" "c" "x y")
           "a b" "c" "x y" eq_refl eq_refl).
Defined.

Lemma written_row_is_loaded :
  exists inp rep n s d,
    row "a b" "x y" "3" "3" "3"
    = inp ++ TAB ++ rep ++ TAB ++ Str.of_nat n ++ TAB ++ Str.of_nat s
          ++ TAB ++ Str.of_nat d ++ NL
    /\ 1 <= n /\ n <= s
    /\ Str.count Str.tab inp = 0 /\ Str.count Str.tab rep = 0
    /\ (inp <> "" -> Str.lstrip inp = inp -> rep <> "" ->
        forall vocab : vocab_t py,
          load_row vocab (row "a b" "x y" "3" "3" "3")
          = Ok (Dict.set inp
                  (Dict.set rep (truediv py (Z.of_nat n) (Z.of_nat s))
                     (Dict.get_default inp Dict.empty vocab))
                  vocab)).
Proof.
  apply (@written_rows_load py [good "a b" "x" "x y"]
           [row "a" "x" "1" "1" "1"; row "a b" "x y" "3" "3" "3"; row "b" "y" "4" "4" "4"]).
  - vm_compute. reflexivity.
  - right. left. reflexivity.
Defined.

Lemma row_a_x_sets_one_half :
  exists src dst joint_freq src_freq dst_freq j s,
    Str.split Str.tab (Str.strip (row "a" "x" "1" "2" "3"))
    = [src; dst; joint_freq; src_freq; dst_freq]
    /\ Str.to_int joint_freq = Some j /\ Str.to_int src_freq = Some s
    /\ probability vocab_z_a src dst
       = Some (truediv py j s)
    /\ (forall src' dst',
          src' <> src \/ dst' <> dst ->
          probability vocab_z_a src' dst'
          = probability vocab_z src' dst')
    /\ Dict.keys vocab_z_a
       = if Dict.mem src vocab_z then Dict.keys vocab_z
         else (Dict.keys vocab_z ++ [src])%list.
Proof.
  apply (@load_row_sets_one py vocab_z (row "a" "x" "1" "2" "3")).
  vm_compute. reflexivity.
Defined.

Lemma abc_is_expanded :
  exists index_keys,
    @expand py vocab_abc ["a"; "b"; "c"] = Ok index_keys
    /\ length index_keys = length ["a"; "b"; "c"].
Proof.
  apply (@expand_returns py vocab_abc ["a"; "b"; "c"]).
  intros src targets target p G I. simpl in G.
  destruct (String.eqb src "a b").
  - inversion G; subst targets. destruct I as [I | []]. inversion I; subst.
    vm_compute. discriminate.
  - destruct (String.eqb src "b c"); [|discriminate].
    inversion G; subst targets. destruct I as [I | []]. inversion I; subst.
    vm_compute. discriminate.
Defined.

Lemma probability_zero_raises :
  ValueError = ValueError
  /\ exists begin end_ targets target p,
      begin < end_ /\ end_ <= begin + 4 /\ end_ <= length ["a"]
      /\ Dict.get (Str.join " " (slice ["a"] begin end_)) vocab_zero = Some targets
      /\ In (target, p) targets
      /\ math_log py p = None.
Proof.
  apply (@expand_raises py vocab_zero ["a"] ValueError).
  vm_compute. reflexivity.
Defined.

Lemma phrase_a_leaves_the_index :
  index_line vocab_z (empty_index py) (good "a" "-" "-") = Ok (empty_index py).
Proof.
  apply (@index_line_without_windows py vocab_z (empty_index py) (good "a" "-" "-")
           "a" "-" "-" eq_refl).
  intros begin end_ B1 B2 B3. simpl in B3.
  assert (begin = 0) by lia. assert (end_ = 1) by lia. subst. reflexivity.
Defined.

Lemma echo_of_three_lines :
  infer_file echo 2 three_lines = Ok (Str.join NL (all_predictions echo 2 three_lines))
  /\ length (all_predictions echo 2 three_lines) = length three_lines.
Proof. apply (@infer_file_returns echo 2 three_lines). reflexivity. Defined.

Lemma batch_size_zero_sends_all :
  all_predictions echo 0 three_lines = echo (map Str.strip three_lines).
Proof. apply (@nonpositive_batch_size echo 0 three_lines). discriminate. Defined.

Lemma min_number_zero_writes_nothing :
  snd (make_sample 0 [file_aab]) = ""
  /\ forall cls, Dict.get_default cls 0 (fst (make_sample 0 [file_aab])) = 0.
Proof. apply (@make_sample_nothing 0 [file_aab]). discriminate. Defined.

Lemma min_number_seven_writes_all :
  snd (make_sample 7 [file_aab]) = Str.join "" (map (fun contents => contents ++ EOS) [file_aab])
  /\ forall cls,
      Dict.get_default cls 0 (fst (make_sample 7 [file_aab]))
      = occurrences cls (sentences [file_aab]).
Proof. apply (@make_sample_everything 7 [file_aab]). vm_compute. discriminate. Defined.

Lemma posting_x_y_of_abc :
  exists line dst align index_keys rendering,
    In line lines_abc
    /\ process_line line = Some ("a b c", dst, align)
    /\ expand vocab_abc (Str.split Str.space "a b c") = Ok index_keys
    /\ In (rendering, ln_quarter) (nth 0 index_keys Dict.empty)
    /\ "x y" = normalize rendering
    /\ 2 = Str.count Str.space rendering
    /\ 0 < length (Str.split Str.space "a b c")
    /\ 1 <= 2
    /\ fgt py ln_quarter (minus_four py) = true.
Proof.
  apply (@postings_of_a_run py vocab_abc lines_abc "x y" "a b c" 0 2 ln_quarter).
  vm_compute. right. left. reflexivity.
Defined.

End CaseFacts.

(** ** Fragments between word borders *)

Section BorderFacts.
Import Scenarios.

(** X22: a line of [get_sub_misspells] whose facets have as many tokens
    each is accepted and counts one fragment for every word border, one more
    for what follows the last border when there is a border, and one for the
    whole phrase. *)
Theorem get_sub_misspells_line_counts v line src dst align :
  process_line line = Some (src, dst, align) ->
  length (Str.split Str.space src) = length (Str.split Str.space align) ->
  let k := length (borders (Str.split Str.space src) (Str.split Str.space align)) in
  exists v',
    get_sub_misspells_line v line = Ok v'
    /\ total (src_vocab v') = total (src_vocab v) + k + (if 0 <? k then 1 else 0) + 1
    /\ total (dst_vocab v') = total (dst_vocab v) + k + (if 0 <? k then 1 else 0) + 1.
Proof.
  intros P L k. unfold get_sub_misspells_line. rewrite P, L, Nat.eqb_refl. simpl negb.
  cbv iota. subst k. unfold borders. rewrite <- L.
  generalize (Str.split Str.space src) (Str.split Str.space align).
  intros inputs replacements.
  set (test := fun i => String.eqb (nth i inputs "") "_"
                        && String.eqb (nth i replacements "") "_").
  set (step := fun (bv : nat * vocabs) i =>
                 let '(begin, v) := bv in
                 if String.eqb (nth i inputs "") "_" && String.eqb (nth i replacements "") "_"
                 then (i + 1,
                       update_vocabs_with_aligned_fragment
                         (slice inputs begin i) (slice replacements begin i) v true)
                 else (begin, v)).
  assert (G : forall l b v0,
             total (src_vocab (snd (fold_left step l (b, v0))))
             = total (src_vocab v0) + length (filter test l)
             /\ total (dst_vocab (snd (fold_left step l (b, v0))))
                = total (dst_vocab v0) + length (filter test l)
             /\ (0 <? fst (fold_left step l (b, v0)))
                = (0 <? b) || (0 <? length (filter test l))).
  { induction l as [|i l IH]; intros b v0.
    - simpl. rewrite orb_false_r. repeat split; lia.
    - change (fold_left step (i :: l) (b, v0)) with (fold_left step l (step (b, v0) i)).
      cbn [filter]. unfold step at 2 4 6. fold (test i). destruct (test i).
      + destruct (IH (i + 1)
                    (update_vocabs_with_aligned_fragment
                       (slice inputs b i) (slice replacements b i) v0 true))
          as (-> & -> & ->).
        destruct (update_totals (slice inputs b i) (slice replacements b i) v0 true)
          as [-> ->].
        cbn [length]. replace (0 <? i + 1) with true by (symmetry; apply Nat.ltb_lt; lia).
        replace (0 <? S (length (filter test l))) with true
          by (symmetry; apply Nat.ltb_lt; lia).
        rewrite orb_true_r. simpl. lia.
      + apply IH. }
  specialize (G (range 0 (length inputs)) 0 v). fold step.
  destruct (fold_left step (range 0 (length inputs)) (0, v)) as [begin v1].
  simpl in G. destruct G as (Gs & Gd & Gb). rewrite Gb.
  eexists. split; [reflexivity|].
  destruct (update_totals inputs replacements
              (if 0 <? length (filter test (range 0 (length inputs)))
               then update_vocabs_with_aligned_fragment
                      (skipn begin inputs) (skipn begin replacements) v1 true
               else v1) true) as [-> ->].
  destruct (0 <? length (filter test (range 0 (length inputs)))).
  - destruct (update_totals (skipn begin inputs) (skipn begin replacements) v1 true)
      as [-> ->]. lia.
  - lia.
Qed.

Lemma hello_w_counts_three :
  exists v',
    get_sub_misspells_line no_vocabs (good "h e l l o _ w" "x" "h a l l o _ w") = Ok v'
    /\ total (src_vocab v') = total (src_vocab no_vocabs) + 1 + 1 + 1
    /\ total (dst_vocab v') = total (dst_vocab no_vocabs) + 1 + 1 + 1.
Proof.
  exact (@get_sub_misspells_line_counts no_vocabs (good "h e l l o _ w" "x" "h a l l o _ w")
           "h e l l o _ w" "x" "h a l l o _ w" eq_refl eq_refl).
Defined.

End BorderFacts.
